(** * MOBBO_OneSerial: the balance-board serial receiver and visualiser

    A shallow embedding of [balanceboardreceiver.py] and
    [balanceboardvisualiser.py].  Both programs poll a serial port, decode
    what is waiting, append it to a text buffer and cut that buffer into
    lines at every line feed; the receiver prints the lines, the visualiser
    parses them into force and centre-of-pressure readings.

    The file has three layers:
    - [Py]: the parts of the Python runtime the programs call
      ([bytes.decode], [str.strip], [str.split], [str.startswith], [float],
      [min]/[max] and binary64 arithmetic);
    - [Receiver] and [Visualizer]: the two programs, statement by statement;
    - the properties of the line framer, the parser and the display. *)

From Stdlib Require Import ZArith NArith PArith List Bool Lia String Ascii.
From Stdlib Require Import Strings.Byte.
From Stdlib Require Import SpecFloat.
From Equations Require Import Equations.
From Equations.Prop Require Import Logic.
Import ListNotations.

Set Default Goal Selector "!".

(* ===================================================================== *)
(** * The Python runtime                                                  *)
(* ===================================================================== *)

Module Py.

(** A Python [str] is a sequence of Unicode code points. *)
Definition char := N.
Definition str := list char.

(** A string literal of the source, as a [str]. *)
Definition lit (s : string) : str := map N_of_ascii (list_ascii_of_string s).

(** A [bytes] literal holding the ASCII characters of [s]. *)
Definition blit (s : string) : list byte := map byte_of_ascii (list_ascii_of_string s).

Definition LF : char := 10%N.
Definition COMMA : char := 44%N.

(** ** [bytes.decode('utf-8', errors=...)]

    The decoder reads one sequence at a time.  On a malformed sequence it
    hands the offending range to the error handler and resumes right after
    that range: one byte for an invalid start byte, the one, two or three
    well-formed leading bytes for an invalid continuation byte, everything
    up to the end of the data for a truncated sequence. *)

Inductive errors := strict | ignore | replace.

Definition REPLACEMENT : char := 65533%N. (* U+FFFD *)

(** What the handler does with an error, [k] being the decoding of the
    bytes after the error range. *)
Definition on_error (h : errors) (k : option str) : option str :=
  match h with
  | strict => None                                   (* UnicodeDecodeError *)
  | ignore => k
  | replace => option_map (cons REPLACEMENT) k
  end.

Definition is_continuation (b : N) : bool := ((128 <=? b) && (b <? 192))%N.

Definition emit (c : char) (k : option str) : option str := option_map (cons c) k.

Fixpoint utf8_decode (h : errors) (s : list byte) : option str :=
  match s with
  | [] => Some []
  | b1 :: s1 =>
    let ch := Byte.to_N b1 in
    if (ch <? 128)%N then emit ch (utf8_decode h s1)
    else if (ch <? 194)%N then on_error h (utf8_decode h s1)     (* invalid start byte *)
    else if (ch <? 224)%N then
      (* two bytes: C2 80 .. DF BF *)
      match s1 with
      | [] => on_error h (Some [])                               (* unexpected end of data *)
      | b2 :: s2 =>
        let ch2 := Byte.to_N b2 in
        if negb (is_continuation ch2) then on_error h (utf8_decode h s1)
        else emit (N.shiftl ch 6 + ch2 - (N.shiftl 192 6 + 128))%N (utf8_decode h s2)
      end
    else if (ch <? 240)%N then
      (* three bytes: E0 A0 80 .. EF BF BF, surrogates excluded *)
      match s1 with
      | [] => on_error h (Some [])
      | b2 :: s2 =>
        let ch2 := Byte.to_N b2 in
        if negb (is_continuation ch2)
           || (if (ch2 <? 160)%N then (ch =? 224)%N else (ch =? 237)%N)
        then on_error h (utf8_decode h s1)
        else
          match s2 with
          | [] => on_error h (Some [])
          | b3 :: s3 =>
            let ch3 := Byte.to_N b3 in
            if negb (is_continuation ch3) then on_error h (utf8_decode h s2)
            else emit (N.shiftl ch 12 + N.shiftl ch2 6 + ch3
                       - (N.shiftl 224 12 + N.shiftl 128 6 + 128))%N
                      (utf8_decode h s3)
          end
      end
    else if (ch <? 245)%N then
      (* four bytes: F0 90 80 80 .. F4 8F BF BF *)
      match s1 with
      | [] => on_error h (Some [])
      | b2 :: s2 =>
        let ch2 := Byte.to_N b2 in
        if negb (is_continuation ch2)
           || (if (ch2 <? 144)%N then (ch =? 240)%N else (ch =? 244)%N)
        then on_error h (utf8_decode h s1)
        else
          match s2 with
          | [] => on_error h (Some [])
          | b3 :: s3 =>
            let ch3 := Byte.to_N b3 in
            if negb (is_continuation ch3) then on_error h (utf8_decode h s2)
            else
              match s3 with
              | [] => on_error h (Some [])
              | b4 :: s4 =>
                let ch4 := Byte.to_N b4 in
                if negb (is_continuation ch4) then on_error h (utf8_decode h s3)
                else emit (N.shiftl ch 18 + N.shiftl ch2 12 + N.shiftl ch3 6 + ch4
                           - (N.shiftl 240 18 + N.shiftl 128 12 + N.shiftl 128 6 + 128))%N
                          (utf8_decode h s4)
              end
          end
      end
    else on_error h (utf8_decode h s1)                           (* F5 .. FF *)
  end.

(** ** Text operations *)

(** [c in s] *)
Definition contains (c : char) (s : str) : bool := existsb (N.eqb c) s.

(** [s.split(c, 1)]: cut at the first [c]; one part when [c] does not occur. *)
Fixpoint split_once (c : char) (s : str) : list str :=
  match s with
  | [] => [[]]
  | x :: s' =>
    if (x =? c)%N then [[]; s']
    else match split_once c s' with
         | p :: ps => (x :: p) :: ps
         | [] => [[x]]
         end
  end.

(** [s.split(c)]: cut at every [c]; always at least one part. *)
Fixpoint split (c : char) (s : str) : list str :=
  match s with
  | [] => [[]]
  | x :: s' =>
    if (x =? c)%N then [] :: split c s'
    else match split c s' with
         | p :: ps => (x :: p) :: ps
         | [] => [[x]]
         end
  end.

(** [str.isspace] on one character: the Unicode white-space characters. *)
Definition is_space (c : char) : bool :=
  (((9 <=? c) && (c <=? 13)) || ((28 <=? c) && (c <=? 32))
   || (c =? 133) || (c =? 160) || (c =? 5760)
   || ((8192 <=? c) && (c <=? 8202))
   || (c =? 8232) || (c =? 8233) || (c =? 8239) || (c =? 8287) || (c =? 12288))%N.

Fixpoint drop_while (p : char -> bool) (s : str) : str :=
  match s with
  | [] => []
  | c :: s' => if p c then drop_while p s' else s
  end.

Definition lstrip (s : str) : str := drop_while is_space s.
Definition rstrip (s : str) : str := rev (drop_while is_space (rev s)).

(** [s.strip()] *)
Definition strip (s : str) : str := rstrip (lstrip s).

(** [s.startswith(p)] *)
Fixpoint startswith (s p : str) : bool :=
  match p, s with
  | [], _ => true
  | _ :: _, [] => false
  | a :: p', c :: s' => (c =? a)%N && startswith s' p'
  end.

(** Truth value of a [str]: non-empty. *)
Definition truthy (s : str) : bool := match s with [] => false | _ :: _ => true end.

(** ** Binary64 numbers

    A Python [float] is an IEEE 754 binary64 number: 53 bits of precision,
    round to nearest, ties to even. *)

Definition float := spec_float.
Definition prec : Z := 53.
Definition emax : Z := 1024.

Definition fadd : float -> float -> float := SFadd prec emax.
Definition fmul : float -> float -> float := SFmul prec emax.
Definition fabs : float -> float := SFabs.

(** [a < b] and [a > b]; both false when an operand is a NaN. *)
Definition flt (a b : float) : bool := SFltb a b.
Definition fgt (a b : float) : bool := SFltb b a.

Definition is_zero (a : float) : bool :=
  match a with S754_zero _ => true | _ => false end.

(** [a / b]; [None] is [ZeroDivisionError]. *)
Definition truediv (a b : float) : option float :=
  if is_zero b then None else Some (SFdiv prec emax a b).

(** [max(a, b)] and [min(a, b)]: the first argument is kept unless the
    second is strictly larger (smaller). *)
Definition max (a b : float) : float := if fgt b a then b else a.
Definition min (a b : float) : float := if flt b a then b else a.

(** The binary64 number nearest to [(-1)^neg * m * 10^e]: the value of a
    decimal literal, in the source text or handed to [float]. *)
Definition of_decimal (neg : bool) (m : N) (e : Z) : float :=
  match m with
  | N0 => S754_zero neg
  | Npos p =>
    match e with
    | Zneg k => SFdiv prec emax (S754_finite neg p 0) (S754_finite false (Pos.pow 10 k) 0)
    | Z0 => binary_round prec emax neg p 0
    | Zpos k => binary_round prec emax neg (p * Pos.pow 10 k) 0
    end
  end.

(** An [int] used in float arithmetic. *)
Definition of_int (z : Z) : float := binary_normalize prec emax z 0 false.

(** ** [float(s)] for a [str]

    Every white-space character above ASCII becomes a blank and every
    decimal digit above ASCII the ASCII digit of its value, the result is
    trimmed of ASCII white space, underscores between digits are removed,
    and what is left must be a decimal number with an optional exponent,
    or an infinity or a NaN.  [None] is [ValueError]. *)

Definition is_digit (c : char) : bool := ((48 <=? c) && (c <=? 57))%N.
Definition is_ascii_space (c : char) : bool := (((9 <=? c) && (c <=? 13)) || (c =? 32))%N.

Definition UNDERSCORE : char := 95%N.

(** The decimal digits above ASCII (the characters of category Nd, as of
    Unicode 14): the first code point and the length of each run of them.
    Along a run the values go from 0 to 9, again and again. *)
Definition decimal_runs : list (N * N) :=
  [(1632, 10); (1776, 10); (1984, 10); (2406, 10); (2534, 10); (2662, 10);
   (2790, 10); (2918, 10); (3046, 10); (3174, 10); (3302, 10); (3430, 10);
   (3558, 10); (3664, 10); (3792, 10); (3872, 10); (4160, 10); (4240, 10);
   (6112, 10); (6160, 10); (6470, 10); (6608, 10); (6784, 10); (6800, 10);
   (6992, 10); (7088, 10); (7232, 10); (7248, 10); (42528, 10); (43216, 10);
   (43264, 10); (43472, 10); (43504, 10); (43600, 10); (44016, 10);
   (65296, 10); (66720, 10); (68912, 10); (69734, 10); (69872, 10);
   (69942, 10); (70096, 10); (70384, 10); (70736, 10); (70864, 10);
   (71248, 10); (71360, 10); (71472, 10); (71904, 10); (72016, 10);
   (72784, 10); (73040, 10); (73120, 10); (92768, 10); (92864, 10);
   (93008, 10); (120782, 50); (123200, 10); (123632, 10); (125264, 10);
   (130032, 10)]%N.

(** The value of a decimal digit above ASCII. *)
Definition decimal_digit (c : char) : option N :=
  match find (fun r => (fst r <=? c) && (c <? fst r + snd r))%N decimal_runs with
  | Some r => Some ((c - fst r) mod 10)%N
  | None => None
  end.

(** Characters below 127 stay, other white space becomes a blank, another
    decimal digit the ASCII digit of its value; the text is cut at the
    first other character, which is replaced by ['?']. *)
Fixpoint to_ascii (s : str) : str :=
  match s with
  | [] => []
  | c :: s' =>
    if (c <? 127)%N then c :: to_ascii s'
    else if is_space c then 32%N :: to_ascii s'
    else match decimal_digit c with
         | Some d => (48 + d)%N :: to_ascii s'
         | None => [63%N]
         end
  end.

Definition ascii_strip (s : str) : str :=
  rev (drop_while is_ascii_space (rev (drop_while is_ascii_space s))).

(** An underscore is allowed only between two digits. *)
Fixpoint drop_underscores (prev : char) (s : str) : option str :=
  match s with
  | [] => if (prev =? UNDERSCORE)%N then None else Some []
  | c :: s' =>
    if (c =? UNDERSCORE)%N then
      if is_digit prev then drop_underscores c s' else None
    else if (prev =? UNDERSCORE)%N && negb (is_digit c) then None
    else option_map (cons c) (drop_underscores c s')
  end.

(** The longest run of digits at the front, and what follows it. *)
Fixpoint span_digits (s : str) : str * str :=
  match s with
  | [] => ([], [])
  | c :: s' =>
    if is_digit c then let (d, r) := span_digits s' in (c :: d, r)
    else ([], s)
  end.

Definition digits_value (d : str) : N :=
  fold_left (fun acc c => (10 * acc + (c - 48))%N) d 0%N.

Definition is_sign (c : char) : bool := ((c =? 43) || (c =? 45))%N.   (* + - *)

(** An optional sign: is it a minus, and the rest. *)
Definition take_sign (s : str) : bool * str :=
  match s with
  | c :: s' => if is_sign c then ((c =? 45)%N, s') else (false, s)
  | [] => (false, s)
  end.

Definition lower (c : char) : char :=
  if ((65 <=? c) && (c <=? 90))%N then (c + 32)%N else c.

(** The exponent part; [None] when the text after the mantissa is not an
    exponent running to the end of the text. *)
Definition parse_exponent (s : str) : option Z :=
  match s with
  | [] => Some 0%Z
  | c :: s' =>
    if (lower c =? 101)%N then                                   (* e E *)
      let (neg, s1) := take_sign s' in
      match span_digits s1 with
      | ((_ :: _) as d, []) =>
        let n := Z.of_N (digits_value d) in
        Some (if neg then (- n)%Z else n)
      | _ => None
      end
    else None
  end.

(** The decimal number [int.frac e exp]; at least one digit is required. *)
Definition parse_decimal (neg : bool) (s : str) : option float :=
  let (ip, s1) := span_digits s in
  let (fp, s2) :=
    match s1 with
    | c :: s1' => if (c =? 46)%N then span_digits s1' else ([], s1)
    | [] => ([], s1)
    end in
  match ip ++ fp with
  | [] => None
  | _ :: _ =>
    match parse_exponent s2 with
    | Some e => Some (of_decimal neg (digits_value (ip ++ fp)) (e - Z.of_nat (List.length fp)))
    | None => None
    end
  end.

(** [inf], [infinity] and [nan], in any letter case. *)
Definition parse_inf_or_nan (neg : bool) (s : str) : option float :=
  let w := map lower s in
  if list_eq_dec N.eq_dec w (lit "inf") then Some (S754_infinity neg)
  else if list_eq_dec N.eq_dec w (lit "infinity") then Some (S754_infinity neg)
  else if list_eq_dec N.eq_dec w (lit "nan") then Some S754_nan
  else None.

Definition float_of_str (s : str) : option float :=
  match drop_underscores 0%N (ascii_strip (to_ascii s)) with
  | None => None
  | Some t =>
    let (neg, body) := take_sign t in
    match parse_decimal neg body with
    | Some x => Some x
    | None => parse_inf_or_nan neg body
    end
  end.

End Py.

Import Py.

(* ===================================================================== *)
(** * The serial port                                                     *)
(* ===================================================================== *)

(** The port is opened with [timeout=0]: a read returns at once with the
    bytes that are waiting.  A poll is described by those bytes:
    [in_waiting] is their number and [read(in_waiting)] returns them. *)
Definition in_waiting (waiting : list byte) : nat := List.length waiting.
Definition read (waiting : list byte) (n : nat) : list byte := firstn n waiting.

(** [ser.read(ser.in_waiting).decode('utf-8', errors='ignore')] *)
Definition read_chunk (waiting : list byte) : option str :=
  utf8_decode ignore (read waiting (in_waiting waiting)).

(* ===================================================================== *)
(** * The line loop                                                       *)
(* ===================================================================== *)

(** Both programs contain the same loop,
<<
    while '\n' in buffer:
        line, buffer = buffer.split('\n', 1)
        ... body, which uses line ...
>>
    [body] is what a program does with [line]; it does not touch [buffer].
    Unpacking a split that has not exactly two parts raises [ValueError];
    that leaves the loop with the buffer as it was. *)
Section LineLoop.
Variable St : Type.
Variable body : str -> St -> St.

Equations? line_loop (buffer : str) (st : St) : str * St
  by wf (List.length buffer) lt :=
  line_loop buffer st with inspect (contains LF buffer) := {
    | exist _ true _ with inspect (split_once LF buffer) := {
        | exist _ [line; rest] Hs => line_loop rest (body line st)
        | exist _ _ _ => (buffer, st) }
    | exist _ false _ => (buffer, st) }.
Proof.
  clear - Hs. revert line rest Hs.
  induction buffer as [|x b IH]; simpl; intros line rest Hs.
  - discriminate.
  - destruct (N.eqb x LF).
    + injection Hs as <- <-. lia.
    + destruct (split_once LF b) as [|p [|q [|r t]]] eqn:E; try discriminate.
      injection Hs as <- <-. specialize (IH _ _ eq_refl). lia.
Qed.
End LineLoop.

Arguments line_loop {St} body buffer st.

(* ===================================================================== *)
(** * balanceboardreceiver.py                                             *)
(* ===================================================================== *)

Module Receiver.

(** The local [buffer] of [start] and what has been printed so far, one
    entry for each [print(line, flush=True)]. *)
Record state := { buffer : str; stdout : list str }.

(** The body of the line loop:
<<
    line = line.strip()
    if line:
        print(line, flush=True)
>> *)
Definition print_line (line : str) (out : list str) : list str :=
  let line := strip line in
  if truthy line then out ++ [line] else out.

(** One turn of [while True:], with [waiting] the bytes at the port.  An
    exception raised by the read or the decoding is swallowed by
    [except: pass] before [buffer] is assigned. *)
Definition iteration (waiting : list byte) (st : state) : state :=
  if (0 <? in_waiting waiting)%nat then
    match read_chunk waiting with
    | Some chunk =>
      let (buffer', out) := line_loop print_line (buffer st ++ chunk) (stdout st) in
      {| buffer := buffer'; stdout := out |}
    | None => st
    end
  else st.

(** [buffer = ""] *)
Definition initial : state := {| buffer := []; stdout := [] |}.

(** [start], stopped after the polls [polls]. *)
Definition start (polls : list (list byte)) : state :=
  fold_left (fun st waiting => iteration waiting st) polls initial.

End Receiver.

(* ===================================================================== *)
(** * balanceboardvisualiser.py                                           *)
(* ===================================================================== *)

Module Visualizer.

(** The data attributes of a [BalanceBoardVisualizer]. *)
Record state := {
  buffer : str;
  copx : float; copy : float;
  f1 : float; f2 : float; f3 : float; f4 : float;
  trail_x : list float; trail_y : list float
}.

(** [__init__]: the readings start at the integer [0], which behaves as
    the float [0.0] in every operation of this program. *)
Definition zero : float := S754_zero false.

Definition initial : state :=
  {| buffer := []; copx := zero; copy := zero;
     f1 := zero; f2 := zero; f3 := zero; f4 := zero;
     trail_x := []; trail_y := [] |}.

Definition set_buffer (v : str) (s : state) : state :=
  {| buffer := v; copx := copx s; copy := copy s; f1 := f1 s; f2 := f2 s;
     f3 := f3 s; f4 := f4 s; trail_x := trail_x s; trail_y := trail_y s |}.
Definition set_copx (v : float) (s : state) : state :=
  {| buffer := buffer s; copx := v; copy := copy s; f1 := f1 s; f2 := f2 s;
     f3 := f3 s; f4 := f4 s; trail_x := trail_x s; trail_y := trail_y s |}.
Definition set_copy (v : float) (s : state) : state :=
  {| buffer := buffer s; copx := copx s; copy := v; f1 := f1 s; f2 := f2 s;
     f3 := f3 s; f4 := f4 s; trail_x := trail_x s; trail_y := trail_y s |}.
Definition set_f1 (v : float) (s : state) : state :=
  {| buffer := buffer s; copx := copx s; copy := copy s; f1 := v; f2 := f2 s;
     f3 := f3 s; f4 := f4 s; trail_x := trail_x s; trail_y := trail_y s |}.
Definition set_f2 (v : float) (s : state) : state :=
  {| buffer := buffer s; copx := copx s; copy := copy s; f1 := f1 s; f2 := v;
     f3 := f3 s; f4 := f4 s; trail_x := trail_x s; trail_y := trail_y s |}.
Definition set_f3 (v : float) (s : state) : state :=
  {| buffer := buffer s; copx := copx s; copy := copy s; f1 := f1 s; f2 := f2 s;
     f3 := v; f4 := f4 s; trail_x := trail_x s; trail_y := trail_y s |}.
Definition set_f4 (v : float) (s : state) : state :=
  {| buffer := buffer s; copx := copx s; copy := copy s; f1 := f1 s; f2 := f2 s;
     f3 := f3 s; f4 := v; trail_x := trail_x s; trail_y := trail_y s |}.
Definition set_trail_x (v : list float) (s : state) : state :=
  {| buffer := buffer s; copx := copx s; copy := copy s; f1 := f1 s; f2 := f2 s;
     f3 := f3 s; f4 := f4 s; trail_x := v; trail_y := trail_y s |}.
Definition set_trail_y (v : list float) (s : state) : state :=
  {| buffer := buffer s; copx := copx s; copy := copy s; f1 := f1 s; f2 := f2 s;
     f3 := f3 s; f4 := f4 s; trail_x := trail_x s; trail_y := v |}.

(** ** Statements that may raise

    A statement runs on the object and either completes with a value or
    raises; the assignments made before the exception stay. *)
Definition stmt (A : Type) : Type := state -> state * option A.

Definition ret {A} (a : A) : stmt A := fun s => (s, Some a).
Definition raise {A} : stmt A := fun s => (s, None).
Definition bind {A B} (m : stmt A) (k : A -> stmt B) : stmt B :=
  fun s => match m s with
           | (s', Some a) => k a s'
           | (s', None) => (s', None)
           end.
Definition get {A} (field : state -> A) : stmt A := fun s => (s, Some (field s)).
Definition assign {A} (set : A -> state -> state) (v : A) : stmt unit :=
  fun s => (set v s, Some tt).

Notation "x <- m ;; k" := (bind m (fun x => k))
  (at level 61, m at next level, right associativity).
Notation "m ;; k" := (bind m (fun _ => k))
  (at level 61, right associativity).

(** [try: block  except: pass] *)
Definition try_pass (block : stmt unit) : state -> state := fun s => fst (block s).

(** [float(parts[i])]: [IndexError] or [ValueError] when it fails. *)
Definition float_at (parts : list str) (i : nat) : stmt float :=
  match nth_error parts i with
  | Some p => match float_of_str p with
              | Some v => ret v
              | None => raise
              end
  | None => raise
  end.

(** [t.pop(0)]: [IndexError] on an empty list. *)
Definition pop0 (field : state -> list float)
    (set : list float -> state -> state) : stmt unit :=
  l <- get field ;;
  match l with
  | [] => raise
  | _ :: t => assign set t
  end.

(** The [try] block of [read_data]. *)
Definition store_fields (parts : list str) : stmt unit :=
  v <- float_at parts 1 ;; assign set_f1 v ;;
  v <- float_at parts 2 ;; assign set_f2 v ;;
  v <- float_at parts 3 ;; assign set_f3 v ;;
  v <- float_at parts 4 ;; assign set_f4 v ;;
  v <- float_at parts 5 ;; assign set_copx v ;;
  v <- float_at parts 6 ;; assign set_copy v ;;
  (* Update trail (keep last 20 positions) *)
  x <- get copx ;; t <- get trail_x ;; assign set_trail_x (t ++ [x]) ;;
  y <- get copy ;; t <- get trail_y ;; assign set_trail_y (t ++ [y]) ;;
  t <- get trail_x ;;
  if (20 <? List.length t)%nat then
    pop0 trail_x set_trail_x ;;
    pop0 trail_y set_trail_y
  else ret tt.

Definition non_data : list str :=
  map lit ["Setup"; "Taring"; "Format"; "Force"; "Calculating"]%string.

(** The body of the line loop. *)
Definition handle_line (line : str) (self : state) : state :=
  let line := strip line in
  if truthy line && negb (existsb (startswith line) non_data) then
    let parts := split COMMA line in
    if (List.length parts =? 7)%nat then try_pass (store_fields parts) self
    else self
  else self.

(** [read_data], with [waiting] the bytes at the port.  The loop body
    does not use [self.buffer]; the attribute is written back when the
    loop ends. *)
Definition read_data (waiting : list byte) (self : state) : state :=
  if (0 <? in_waiting waiting)%nat then
    match read_chunk waiting with
    | Some chunk =>
      let (buffer', self') := line_loop handle_line (buffer self ++ chunk) self in
      set_buffer buffer' self'
    | None => self
    end
  else self.

(** ** The force cells of [update] *)

(** The percentage label: [f'{pct:.1f}%'] or the text ['0%']. *)
Inductive pct_label := pct_of (pct : float) | pct_0.

(** What [update] sets on one force cell: the value label (shown to one
    decimal), the percentage label and the opacity of the patch. *)
Record cell := { value : float; pct_text : pct_label; alpha : float }.

Definition c_1_0 : float := of_decimal false 10 (-1).   (* 1.0 *)
Definition c_0_3 : float := of_decimal false 3 (-1).    (* 0.3 *)
Definition c_0_7 : float := of_decimal false 7 (-1).    (* 0.7 *)

(** [patch.set_alpha(alpha)]: the opacity is stored when [0 <= alpha <= 1]
    holds; otherwise, as for a NaN, it raises [ValueError] ([None]). *)
Definition set_alpha (a : float) : option float :=
  if SFleb (of_int 0) a && SFleb a (of_int 1) then Some a else None.

(** One turn of [for i, force in enumerate(forces)]; [None] is an
    exception leaving the loop: [ZeroDivisionError] from a division or
    [ValueError] from [set_alpha]. *)
Definition update_cell (total force : float) : option cell :=
  if fgt total c_1_0 then
    match truediv (fabs force) (fabs total) with
    | None => None
    | Some r =>
      let pct := fmul r (of_int 100) in
      match truediv (fabs force) (max (fabs total) (of_int 1)) with
      | None => None
      | Some q =>
        let a := min (max (fadd c_0_3 (fmul q c_0_7)) c_0_3) c_1_0 in
        match set_alpha a with
        | None => None
        | Some a' => Some {| value := force; pct_text := pct_of pct; alpha := a' |}
        end
      end
    end
  else
    match set_alpha c_0_3 with
    | None => None
    | Some a' => Some {| value := force; pct_text := pct_0; alpha := a' |}
    end.

Definition total_force (self : state) : float :=
  fadd (fadd (fadd (f1 self) (f2 self)) (f3 self)) (f4 self).

(** The cells in the order of [forces = [f2, f1, f3, f4]]; [None] when a
    turn of the loop raises. *)
Fixpoint for_each (total : float) (forces : list float) : option (list cell) :=
  match forces with
  | [] => Some []
  | force :: rest =>
    match update_cell total force with
    | None => None
    | Some c => option_map (cons c) (for_each total rest)
    end
  end.

Definition update_forces (self : state) : option (list cell) :=
  let forces := [f2 self; f1 self; f3 self; f4 self] in
  let total := total_force self in
  for_each total forces.

(** [update]: read, then redraw from the current readings.  Of the redraw
    only the force cells are modelled. *)
Definition update (waiting : list byte) (self : state) : state * option (list cell) :=
  let self' := read_data waiting self in
  (self', update_forces self').

End Visualizer.

(* ===================================================================== *)
(** * Reference definitions                                               *)
(* ===================================================================== *)

(** The text a poll adds to the buffer (nothing when the read fails). *)
Definition decoded (waiting : list byte) : str :=
  match read_chunk waiting with
  | Some chunk => chunk
  | None => []
  end.

(** All the text received over a sequence of polls. *)
Definition received (polls : list (list byte)) : str := List.concat (map decoded polls).

(** A text cut at every line feed: the segments that were terminated by a
    line feed, in order, and the unterminated rest. *)
Fixpoint segments (s : str) : list str * str :=
  match s with
  | [] => ([], [])
  | c :: s' =>
    let (segs, rest) := segments s' in
    if (c =? LF)%N then ([] :: segs, rest)
    else match segs with
         | [] => ([], c :: rest)
         | g :: gs => ((c :: g) :: gs, rest)
         end
  end.

(** Lines put back together, a line feed after each, then the rest. *)
Definition rejoin (lines : list str) (rest : str) : str :=
  List.concat (map (fun l => l ++ [LF]) lines) ++ rest.

(** The last [n] elements of a list (all of it when it is shorter). *)
Definition lastn {A} (n : nat) (l : list A) : list A :=
  skipn (List.length l - n) l.

(** ** The telemetry record of a line

    The parser of the specification: a line that starts with a diagnostic
    prefix or has not exactly seven comma-separated fields has no record;
    otherwise fields 1 to 6 are converted, and all six must convert. *)
Module Spec.

Record record := {
  F1 : float; F2 : float; F3 : float; F4 : float;
  COPx : float; COPy : float
}.

Definition parse (line : str) : option record :=
  if existsb (startswith line) Visualizer.non_data then None
  else
    match split COMMA line with
    | [_; a; b; c; d; x; y] =>
      match float_of_str a, float_of_str b, float_of_str c,
            float_of_str d, float_of_str x, float_of_str y with
      | Some a', Some b', Some c', Some d', Some x', Some y' =>
        Some {| F1 := a'; F2 := b'; F3 := c'; F4 := d'; COPx := x'; COPy := y' |}
      | _, _, _, _, _, _ => None
      end
    | _ => None
    end.

(** The trail with one more point, the oldest leaving when it is full. *)
Definition push (trail : list float) (v : float) : list float :=
  if (20 <=? List.length trail)%nat then tl trail ++ [v] else trail ++ [v].

(** A record folded into the consumer: the readings are overwritten and
    the centre of pressure joins the trail. *)
Definition store (r : record) (self : Visualizer.state) : Visualizer.state :=
  {| Visualizer.buffer := Visualizer.buffer self;
     Visualizer.copx := COPx r; Visualizer.copy := COPy r;
     Visualizer.f1 := F1 r; Visualizer.f2 := F2 r;
     Visualizer.f3 := F3 r; Visualizer.f4 := F4 r;
     Visualizer.trail_x := push (Visualizer.trail_x self) (COPx r);
     Visualizer.trail_y := push (Visualizer.trail_y self) (COPy r) |}.

End Spec.

(** The visualiser after a sequence of redraw ticks, each with the bytes
    that were waiting at that tick. *)
Definition ticks (polls : list (list byte)) : Visualizer.state :=
  fold_left (fun self waiting => fst (Visualizer.update waiting self)) polls
            Visualizer.initial.

(** A byte that cannot start a sequence is skipped. *)
Definition invalid_start (b : byte) : bool :=
  let ch := Byte.to_N b in
  (((128 <=? ch) && (ch <? 194)) || (245 <=? ch))%N.

(** The receiver run from any state. *)
Definition receiver_run (st : Receiver.state) (polls : list (list byte)) :=
  fold_left (fun st waiting => Receiver.iteration waiting st) polls st.

(** The two trails always have the same length. *)
Definition trails_aligned (self : Visualizer.state) : Prop :=
  List.length (Visualizer.trail_x self) = List.length (Visualizer.trail_y self).

(** The records of the lines that have one, in order. *)
Fixpoint records (lines : list str) : list Spec.record :=
  match lines with
  | [] => []
  | l :: rest =>
    match Spec.parse (strip l) with
    | Some r => r :: records rest
    | None => records rest
    end
  end.

(** Not a number. *)
Definition is_nan (a : float) : bool :=
  match a with S754_nan => true | _ => false end.

(** [text] is [shown] with some replacement characters taken out. *)
Inductive less_replacements : str -> str -> Prop :=
| lr_nil : less_replacements [] []
| lr_keep c text shown :
    less_replacements text shown -> less_replacements (c :: text) (c :: shown)
| lr_drop text shown :
    less_replacements text shown -> less_replacements text (REPLACEMENT :: shown).

(** Division where the divisor is known not to be zero. *)
Definition fdiv : float -> float -> float := SFdiv prec emax.

(** The opacity kept between [0.3] and [1.0]. *)
Definition clamp (x : float) : float :=
  min (max x Visualizer.c_0_3) Visualizer.c_1_0.

(** A cell that shows its share of the total. *)
Definition share_cell (total force : float) : Visualizer.cell :=
  let share := fdiv (fabs force) (fabs total) in
  {| Visualizer.value := force;
     Visualizer.pct_text := Visualizer.pct_of (fmul share (of_int 100));
     Visualizer.alpha := clamp (fadd Visualizer.c_0_3 (fmul share Visualizer.c_0_7)) |}.

(** A cell that shows ['0%'] at the least opacity. *)
Definition blank_cell (force : float) : Visualizer.cell :=
  {| Visualizer.value := force;
     Visualizer.pct_text := Visualizer.pct_0;
     Visualizer.alpha := Visualizer.c_0_3 |}.


Definition forces_of (self : Visualizer.state) : list float :=
  [Visualizer.f2 self; Visualizer.f1 self; Visualizer.f3 self; Visualizer.f4 self].

(** ** The rest of the redraw

    The artists that [setup_plot] creates and [update] sets at every
    tick.  A label is kept as the numbers it shows; the formatting to one
    decimal is not modelled. *)
Module Figure.

(** The label over the board: empty at first, then
    [f'COP: ({copx:.1f}, {copy:.1f}) cm']. *)
Inductive cop_label := cop_label_empty | cop_label_of (x y : float).

Record artists := {
  cop_trail : list float * list float;    (* data of the trail line *)
  cop_point : float * float;              (* offsets of the marker *)
  cop_text : cop_label;
  force_cells : list Visualizer.cell;     (* patches and labels, by position *)
  total_text : float                      (* f'Total: {total:.1f} Kg' *)
}.

(** [setup_plot]: an empty trail line, the marker at (0, 0), no label over
    the board, four cells showing ['0.0 Kg'] and ['0%'] at opacity 0.3,
    and ['Total: 0.0 Kg']. *)
Definition setup_plot : artists :=
  {| cop_trail := ([], []);
     cop_point := (Visualizer.zero, Visualizer.zero);
     cop_text := cop_label_empty;
     force_cells :=
       repeat {| Visualizer.value := Visualizer.zero;
                 Visualizer.pct_text := Visualizer.pct_0;
                 Visualizer.alpha := Visualizer.c_0_3 |} 4;
     total_text := Visualizer.zero |}.

(** [update(frame)]: read, then set the artists from the readings.  The
    trail line is set only when the trail is not empty.  [None] stands for
    an exception leaving [update]. *)
Definition update (waiting : list byte)
    (now : Visualizer.state * artists) : option (Visualizer.state * artists) :=
  let (self, fig) := now in
  let self := Visualizer.read_data waiting self in
  let trail :=
    if (0 <? List.length (Visualizer.trail_x self))%nat
    then (Visualizer.trail_x self, Visualizer.trail_y self)
    else cop_trail fig in
  match Visualizer.update_forces self with
  | Some cells =>
    Some (self,
          {| cop_trail := trail;
             cop_point := (Visualizer.copx self, Visualizer.copy self);
             cop_text := cop_label_of (Visualizer.copx self) (Visualizer.copy self);
             force_cells := cells;
             total_text := Visualizer.total_force self |})
  | None => None
  end.

(** The animation: [update] at every tick, from the state [__init__]
    leaves. *)
Fixpoint frames (polls : list (list byte))
    (now : Visualizer.state * artists) : option (Visualizer.state * artists) :=
  match polls with
  | [] => Some now
  | waiting :: later =>
    match update waiting now with
    | Some next => frames later next
    | None => None
    end
  end.

Definition animate (polls : list (list byte)) : option (Visualizer.state * artists) :=
  frames polls (Visualizer.initial, setup_plot).

End Figure.

(** An infinity, of either sign. *)
Definition is_infinite (a : float) : bool :=
  match a with S754_infinity _ => true | _ => false end.

(** The visualiser from any state, over a sequence of redraw ticks. *)
Definition ticks_from_state (self : Visualizer.state) (polls : list (list byte))
    : Visualizer.state :=
  fold_left (fun s waiting => fst (Visualizer.update waiting s)) polls self.

(** The number of line feeds in a text, and of line-feed bytes in data. *)
Definition count_lf (t : str) : nat := List.length (filter (N.eqb LF) t).
Definition count_lf_bytes (w : list byte) : nat :=
  List.length (filter (fun b => N.eqb LF (Byte.to_N b)) w).

(** Data that is well-formed UTF-8 as it stands. *)
Definition well_formed (w : list byte) : bool :=
  match utf8_decode strict w with
  | Some _ => true
  | None => false
  end.

(* ===================================================================== *)
(** * Text lemmas                                                         *)
(* ===================================================================== *)

#[local] Arguments N.eqb : simpl never.
#[local] Arguments N.ltb : simpl never.
#[local] Arguments N.leb : simpl never.
#[local] Arguments Nat.ltb : simpl never.
#[local] Arguments Nat.leb : simpl never.

Section TextLemmas.

Lemma contains_app c (a b : str) :
  contains c (a ++ b) = contains c a || contains c b.
Proof. unfold contains. apply existsb_app. Qed.

Lemma contains_false_iff c (s : str) : contains c s = false <-> ~ In c s.
Proof.
  unfold contains. split.
  - intros H Hin.
    assert (existsb (N.eqb c) s = true) as E.
    { apply existsb_exists. exists c. split; [assumption | apply N.eqb_refl]. }
    congruence.
  - intros H. destruct (existsb (N.eqb c) s) eqn:E; [|reflexivity].
    apply existsb_exists in E as (x & Hx & Hc).
    apply N.eqb_eq in Hc. subst. contradiction.
Qed.

(** [split_once] when the separator does not occur. *)
Lemma split_once_absent c (s : str) :
  contains c s = false -> split_once c s = [s].
Proof.
  induction s as [|x s IH]; simpl; intros H; [reflexivity|].
  apply orb_false_elim in H as [Hx Hs].
  rewrite N.eqb_sym, Hx. rewrite (IH Hs). reflexivity.
Qed.

(** [split_once] when it does: exactly two parts, cut at the first one. *)
Lemma split_once_present c (s : str) :
  contains c s = true ->
  exists l r, split_once c s = [l; r] /\ s = l ++ c :: r /\ contains c l = false.
Proof.
  induction s as [|x s IH]; simpl; intros H; [discriminate|].
  destruct (N.eqb x c) eqn:E.
  - apply N.eqb_eq in E. subst. exists [], s. repeat split.
  - rewrite N.eqb_sym, E in H. simpl in H.
    destruct (IH H) as (l & r & Hs & -> & Hl).
    rewrite Hs. exists (x :: l), r. repeat split.
    simpl. rewrite N.eqb_sym, E. exact Hl.
Qed.

(** [segments] of a text that starts with a line and its line feed. *)
Lemma segments_cut (l r : str) :
  contains LF l = false ->
  segments (l ++ LF :: r) = (l :: fst (segments r), snd (segments r)).
Proof.
  induction l as [|x l IH]; simpl; intros H.
  - destruct (segments r). reflexivity.
  - apply orb_false_elim in H as [Hx Hl].
    rewrite (IH Hl). rewrite N.eqb_sym, Hx. reflexivity.
Qed.

Lemma segments_no_lf (s : str) :
  contains LF s = false -> segments s = ([], s).
Proof.
  induction s as [|x s IH]; simpl; intros H; [reflexivity|].
  apply orb_false_elim in H as [Hx Hs].
  rewrite (IH Hs). rewrite N.eqb_sym, Hx. reflexivity.
Qed.

(** Cutting loses nothing: the segments and the rest give the text back. *)
Lemma rejoin_segments (s : str) :
  rejoin (fst (segments s)) (snd (segments s)) = s.
Proof.
  unfold rejoin. induction s as [|x s IH]; simpl; [reflexivity|].
  destruct (segments s) as [segs rest]. simpl in IH.
  destruct (N.eqb x LF) eqn:E.
  - apply N.eqb_eq in E. subst x. simpl. rewrite IH. reflexivity.
  - destruct segs as [|g gs]; simpl in *.
    + rewrite IH. reflexivity.
    + rewrite <- IH. reflexivity.
Qed.

(** No segment and no rest holds a line feed. *)
Lemma segments_lf_free (s : str) :
  Forall (fun g => contains LF g = false) (fst (segments s))
  /\ contains LF (snd (segments s)) = false.
Proof.
  induction s as [|x s IH]; simpl; [split; [constructor | reflexivity]|].
  destruct (segments s) as [segs rest]. simpl in IH. destruct IH as [Hsegs Hrest].
  destruct (N.eqb x LF) eqn:E; simpl.
  - split; [constructor; [reflexivity | assumption] | assumption].
  - destruct segs as [|g gs]; simpl.
    + split; [constructor|]. rewrite N.eqb_sym, E. assumption.
    + inversion Hsegs; subst. split; [|assumption].
      constructor; [|assumption]. simpl. rewrite N.eqb_sym, E. assumption.
Qed.

(** Text that arrives later only extends the rest. *)
Lemma segments_app (a b : str) :
  segments (a ++ b) =
  (fst (segments a) ++ fst (segments (snd (segments a) ++ b)),
   snd (segments (snd (segments a) ++ b))).
Proof.
  induction a as [|x a IH]; simpl.
  - destruct (segments b). reflexivity.
  - rewrite IH. destruct (segments a) as [segs rest]. simpl.
    destruct (N.eqb x LF) eqn:E; simpl; [reflexivity|].
    destruct segs as [|g gs]; simpl.
    + rewrite E. destruct (segments (rest ++ b)) as [[|g' gs'] r']; reflexivity.
    + reflexivity.
Qed.

End TextLemmas.

(* ===================================================================== *)
(** * The line loop cuts the buffer into its segments                     *)
(* ===================================================================== *)

Section LineLoopLemmas.
Variable St : Type.
Variable body : str -> St -> St.

(** The loop runs [body] on every terminated segment of the buffer, in
    order, and leaves the unterminated rest in the buffer. *)
Lemma line_loop_segments (buffer : str) (st : St) :
  line_loop body buffer st =
  (snd (segments buffer),
   fold_left (fun s line => body line s) (fst (segments buffer)) st).
Proof.
  funelim (line_loop body buffer st);
    try match goal with
        | Hc : contains LF ?b = true |- _ =>
          destruct (split_once_present LF b Hc) as (l' & r' & Hs' & Hb' & Hl')
        end.
  all: try congruence.
  - (* no line feed left *)
    rewrite segments_no_lf by assumption. reflexivity.
  - (* one more line *)
    assert (l' = line /\ r' = rest) as [-> ->] by (split; congruence).
    match goal with IH : line_loop _ _ _ = (_, _) |- _ => rewrite IH end.
    subst buffer. rewrite segments_cut by assumption. reflexivity.
Qed.

(** A property of the state that every turn keeps holds when the loop ends. *)
Lemma line_loop_invariant (P : St -> Prop) :
  (forall line s, P s -> P (body line s)) ->
  forall buffer st, P st -> P (snd (line_loop body buffer st)).
Proof.
  intros Hbody buffer st. rewrite line_loop_segments. simpl.
  generalize (fst (segments buffer)). intros lines. revert st.
  induction lines as [|l lines IH]; simpl; intros st Hst; [assumption|].
  apply IH, Hbody, Hst.
Qed.

(** When the loop ends the buffer holds no line feed. *)
Lemma line_loop_buffer (buffer : str) (st : St) :
  contains LF (fst (line_loop body buffer st)) = false.
Proof. rewrite line_loop_segments. simpl. apply segments_lf_free. Qed.

End LineLoopLemmas.

(* ===================================================================== *)
(** * Decoding                                                            *)
(* ===================================================================== *)

Section Decoding.

(** Case analysis along the decoder: one sequence at a time. *)
Ltac decoder_cases :=
  repeat match goal with
         | |- context [if ?c then _ else _] => destruct c eqn:?
         | |- context [match ?l with [] => _ | _ :: _ => _ end] =>
           destruct l as [|? ?]; lazy beta match
         end.

Lemma strong_list_ind (A : Type) (P : list A -> Prop) :
  (forall s, (forall s', (List.length s' < List.length s)%nat -> P s') -> P s) ->
  forall s, P s.
Proof.
  intros step s.
  assert (forall n s, (List.length s < n)%nat -> P s) as H.
  { induction n as [|n IH]; intros s0 Hs; [lia|].
    apply step. intros s' Hs'. apply IH. lia. }
  apply (H (S (List.length s))). lia.
Qed.

(** With [errors='ignore'] the decoder never raises. *)
Lemma utf8_decode_ignore_total (s : list byte) :
  exists t, utf8_decode ignore s = Some t.
Proof.
  induction s as [s IH] using strong_list_ind.
  destruct s as [|b1 s1]; [exists []; reflexivity|].
  simpl. decoder_cases; unfold emit, on_error.
  all: try (eexists; reflexivity).
  all: match goal with
       | |- context [utf8_decode ignore ?s'] =>
         destruct (IH s') as [t Ht]; [simpl; lia | rewrite Ht; simpl; eauto]
       end.
Qed.

Lemma read_chunk_decoded (waiting : list byte) :
  read_chunk waiting = Some (decoded waiting).
Proof.
  unfold decoded. destruct (utf8_decode_ignore_total (read waiting (in_waiting waiting)))
    as [t Ht]. unfold read_chunk. rewrite Ht. reflexivity.
Qed.

Lemma read_all (waiting : list byte) : read waiting (in_waiting waiting) = waiting.
Proof. apply firstn_all. Qed.

Lemma decoded_ignore (waiting : list byte) :
  utf8_decode ignore waiting = Some (decoded waiting).
Proof. rewrite <- read_chunk_decoded. unfold read_chunk. rewrite read_all. reflexivity. Qed.

(** Well-formed text at the front of the data is decoded as it stands,
    whatever follows it. *)
Lemma utf8_decode_prefix (pre suf : list byte) (t1 : str) :
  utf8_decode strict pre = Some t1 ->
  utf8_decode ignore (pre ++ suf) = option_map (app t1) (utf8_decode ignore suf).
Proof.
  revert t1. induction pre as [pre IH] using strong_list_ind. intros t1 H.
  destruct pre as [|b1 s1].
  - injection H as <-. simpl. destruct (utf8_decode ignore suf); reflexivity.
  - simpl in H. cbn [app]. simpl utf8_decode.
    repeat match type of H with
           | context [if ?c then _ else _] => destruct c eqn:?
           | context [match ?l with [] => _ | _ :: _ => _ end] =>
             destruct l as [|? ?]; cbn [app]; lazy beta match in H; lazy beta match
           end.
    all: try discriminate H.
    all: unfold emit in *.
    all: match type of H with
         | option_map _ (utf8_decode strict ?s') = _ =>
           destruct (utf8_decode strict s') as [t'|] eqn:Hs'; [|discriminate H];
           injection H as <-;
           rewrite (IH s') with (t1 := t') by (simpl; lia || assumption);
           destruct (utf8_decode ignore suf); reflexivity
         end.
Qed.

Lemma utf8_decode_invalid_start (b : byte) (s : list byte) :
  invalid_start b = true ->
  utf8_decode ignore (b :: s) = utf8_decode ignore s.
Proof.
  unfold invalid_start. intros H.
  assert ((128 <= Byte.to_N b < 194) \/ 245 <= Byte.to_N b)%N as R.
  { apply orb_prop in H as [H|H].
    - apply andb_prop in H as [Hlo Hhi].
      apply N.leb_le in Hlo. apply N.ltb_lt in Hhi. left. lia.
    - apply N.leb_le in H. right. lia. }
  clear H. simpl.
  destruct (N.ltb_spec (Byte.to_N b) 128), (N.ltb_spec (Byte.to_N b) 194),
    (N.ltb_spec (Byte.to_N b) 224), (N.ltb_spec (Byte.to_N b) 240),
    (N.ltb_spec (Byte.to_N b) 245); try reflexivity; lia.
Qed.

(** ASCII text is well formed, one character for each byte. *)
Lemma utf8_decode_ascii (h : errors) (s : list byte) :
  Forall (fun b => (Byte.to_N b < 128)%N) s ->
  utf8_decode h s = Some (map Byte.to_N s).
Proof.
  induction 1 as [|b s Hb Hs IH]; [reflexivity|].
  simpl. apply N.ltb_lt in Hb. rewrite Hb, IH. reflexivity.
Qed.

End Decoding.

(* ===================================================================== *)
(** * Trimming                                                            *)
(* ===================================================================== *)

Section Trimming.
Variable p : char -> bool.

Lemma drop_while_idem (s : str) :
  drop_while p (drop_while p s) = drop_while p s.
Proof.
  induction s as [|c s IH]; simpl; [reflexivity|].
  destruct (p c) eqn:E; [assumption|]. simpl. rewrite E. reflexivity.
Qed.

Lemma drop_while_head (s : str) c t :
  drop_while p s = c :: t -> p c = false.
Proof.
  induction s as [|x s IH]; simpl; [discriminate|].
  destruct (p x) eqn:E; [assumption|]. intros H. injection H as -> _. assumption.
Qed.

Lemma drop_while_snoc (s : str) c :
  p c = false -> drop_while p (s ++ [c]) = drop_while p s ++ [c].
Proof.
  intros Hc. induction s as [|x s IH]; simpl.
  - rewrite Hc. reflexivity.
  - destruct (p x); [assumption | reflexivity].
Qed.

Lemma drop_while_incl (s : str) x : In x (drop_while p s) -> In x s.
Proof.
  induction s as [|c s IH]; simpl; [tauto|].
  destruct (p c); [intros H; right; auto | simpl; tauto].
Qed.
End Trimming.

Lemma rstrip_cons c (s : str) :
  is_space c = false -> rstrip (c :: s) = c :: rstrip s.
Proof.
  intros Hc. unfold rstrip. simpl rev.
  rewrite drop_while_snoc by assumption. rewrite rev_app_distr. reflexivity.
Qed.

Lemma rstrip_idem (s : str) : rstrip (rstrip s) = rstrip s.
Proof. unfold rstrip. rewrite rev_involutive, drop_while_idem. reflexivity. Qed.

(** [strip] keeps the text from its first to its last character that is
    not white space. *)
Lemma strip_unfold (s : str) :
  strip s = match lstrip s with
            | [] => []
            | c :: t => c :: rstrip t
            end.
Proof.
  unfold strip. destruct (lstrip s) as [|c t] eqn:E; [reflexivity|].
  apply rstrip_cons. exact (drop_while_head _ _ _ _ E).
Qed.

(** Trimming a trimmed text changes nothing. *)
Lemma strip_idem (s : str) : strip (strip s) = strip s.
Proof.
  rewrite (strip_unfold s). destruct (lstrip s) as [|c t] eqn:E; [reflexivity|].
  pose proof (drop_while_head _ _ _ _ E) as Hc.
  rewrite strip_unfold. unfold lstrip. simpl. rewrite Hc.
  rewrite rstrip_idem. reflexivity.
Qed.

Lemma strip_incl (s : str) x : In x (strip s) -> In x s.
Proof.
  unfold strip, rstrip, lstrip. intros H.
  apply in_rev, drop_while_incl, in_rev, drop_while_incl in H. exact H.
Qed.

Lemma contains_strip c (s : str) :
  contains c s = false -> contains c (strip s) = false.
Proof.
  rewrite !contains_false_iff. intros H Hin. apply H, strip_incl, Hin.
Qed.

(* ===================================================================== *)
(** * What the two programs do with the received text                     *)
(* ===================================================================== *)

Section Programs.

(** The receiver prints the trimmed segments that are not empty. *)
Lemma print_lines (segs : list str) (out : list str) :
  fold_left (fun o line => Receiver.print_line line o) segs out =
  out ++ filter truthy (map strip segs).
Proof.
  revert out. induction segs as [|g segs IH]; intros out; simpl.
  - rewrite app_nil_r. reflexivity.
  - rewrite IH. unfold Receiver.print_line.
    destruct (truthy (strip g)); [rewrite <- app_assoc|]; reflexivity.
Qed.

(** One turn of the receiver, on a buffer that holds no line feed. *)
Lemma iteration_segments (waiting : list byte) (st : Receiver.state) :
  contains LF (Receiver.buffer st) = false ->
  Receiver.iteration waiting st =
  {| Receiver.buffer := snd (segments (Receiver.buffer st ++ decoded waiting));
     Receiver.stdout :=
       Receiver.stdout st
       ++ filter truthy (map strip (fst (segments (Receiver.buffer st ++ decoded waiting)))) |}.
Proof.
  intros Hb. unfold Receiver.iteration.
  destruct waiting as [|b w].
  - simpl. rewrite !app_nil_r, segments_no_lf by assumption. simpl.
    rewrite app_nil_r. destruct st; reflexivity.
  - cbn [in_waiting List.length Nat.ltb Nat.leb]. rewrite read_chunk_decoded.
    rewrite line_loop_segments, print_lines. reflexivity.
Qed.

(** The receiver after any sequence of polls, in terms of the text
    received so far. *)
Lemma receiver_run_segments (polls : list (list byte)) :
  forall (st : Receiver.state) (text : str),
    Receiver.buffer st = snd (segments text) ->
    Receiver.stdout st = filter truthy (map strip (fst (segments text))) ->
    let st' := receiver_run st polls in
    let text' := text ++ received polls in
    Receiver.buffer st' = snd (segments text')
    /\ Receiver.stdout st' = filter truthy (map strip (fst (segments text'))).
Proof.
  induction polls as [|w polls IH]; intros st text Hb Ho; simpl.
  - unfold received. simpl. rewrite app_nil_r. split; assumption.
  - unfold received. simpl. rewrite app_assoc.
    apply IH.
    + rewrite iteration_segments by (rewrite Hb; apply segments_lf_free).
      simpl. rewrite Hb, (segments_app text (decoded w)). reflexivity.
    + rewrite iteration_segments by (rewrite Hb; apply segments_lf_free).
      simpl. rewrite Ho, Hb, (segments_app text (decoded w)). simpl.
      rewrite map_app, filter_app. reflexivity.
Qed.

(** One [read_data], on a buffer that holds no line feed: the body runs on
    every segment completed by the new text. *)
Lemma read_data_segments (waiting : list byte) (self : Visualizer.state) :
  contains LF (Visualizer.buffer self) = false ->
  Visualizer.read_data waiting self =
  Visualizer.set_buffer
    (snd (segments (Visualizer.buffer self ++ decoded waiting)))
    (fold_left (fun s line => Visualizer.handle_line line s)
       (fst (segments (Visualizer.buffer self ++ decoded waiting))) self).
Proof.
  intros Hb. unfold Visualizer.read_data.
  destruct waiting as [|b w].
  - simpl. rewrite !app_nil_r, segments_no_lf by assumption. simpl.
    destruct self; reflexivity.
  - cbn [in_waiting List.length Nat.ltb Nat.leb]. rewrite read_chunk_decoded.
    rewrite line_loop_segments. reflexivity.
Qed.

End Programs.

(* ===================================================================== *)
(** * The body of the visualiser's loop                                   *)
(* ===================================================================== *)

Section HandleLine.
Import Visualizer.

Ltac run_block :=
  unfold try_pass, store_fields, float_at, pop0, bind, get, assign, ret, raise;
  cbn [nth_error fst snd].

(** A trail of at most twenty points grows by one point or, when full,
    swaps its oldest point for the new one. *)
Lemma append_pop (t : list float) (v : float) :
  (if (20 <? List.length (t ++ [v]))%nat then tl (t ++ [v]) else t ++ [v])
  = Spec.push t v.
Proof.
  unfold Spec.push. rewrite length_app. cbn [List.length].
  destruct (Nat.ltb_spec 20 (List.length t + 1)), (Nat.leb_spec 20 (List.length t));
    try lia; [|reflexivity].
  destruct t; [cbn [List.length] in *; lia | reflexivity].
Qed.

(** The [try] block when all six conversions succeed. *)
Lemma store_fields_ok p0 a b c d x y (r : Spec.record) (self : state) :
  float_of_str a = Some (Spec.F1 r) -> float_of_str b = Some (Spec.F2 r) ->
  float_of_str c = Some (Spec.F3 r) -> float_of_str d = Some (Spec.F4 r) ->
  float_of_str x = Some (Spec.COPx r) -> float_of_str y = Some (Spec.COPy r) ->
  List.length (trail_x self) = List.length (trail_y self) ->
  try_pass (store_fields [p0; a; b; c; d; x; y]) self = Spec.store r self.
Proof.
  intros Ha Hb Hc Hd Hx Hy Hlen. run_block.
  rewrite Ha, Hb, Hc, Hd, Hx, Hy. cbn.
  pose proof (append_pop (trail_x self) (Spec.COPx r)) as Px.
  pose proof (append_pop (trail_y self) (Spec.COPy r)) as Py.
  assert (List.length (trail_y self ++ [Spec.COPy r])
          = List.length (trail_x self ++ [Spec.COPx r])) as E
    by (rewrite !length_app; simpl; lia).
  rewrite E in Py. unfold Spec.store.
  destruct (20 <? List.length (trail_x self ++ [Spec.COPx r]))%nat eqn:Hfull; cbn.
  - destruct (trail_x self ++ [Spec.COPx r]) as [|hx tx] eqn:Ex;
      [destruct (trail_x self); discriminate|].
    destruct (trail_y self ++ [Spec.COPy r]) as [|hy ty] eqn:Ey;
      [destruct (trail_y self); discriminate|].
    cbn in *. rewrite <- Px, <- Py. reflexivity.
  - rewrite <- Px, <- Py. reflexivity.
Qed.

(** The [try] block when a conversion fails: the trail is not touched. *)
Lemma store_fields_failed p0 a b c d x y (self : state) :
  (float_of_str a = None \/ float_of_str b = None \/ float_of_str c = None \/
   float_of_str d = None \/ float_of_str x = None \/ float_of_str y = None) ->
  let self' := try_pass (store_fields [p0; a; b; c; d; x; y]) self in
  trail_x self' = trail_x self /\ trail_y self' = trail_y self
  /\ buffer self' = buffer self.
Proof.
  intros H. run_block.
  destruct (float_of_str a); [|cbn; auto].
  destruct (float_of_str b); [|cbn; auto].
  destruct (float_of_str c); [|cbn; auto].
  destruct (float_of_str d); [|cbn; auto].
  destruct (float_of_str x); [|cbn; auto].
  destruct (float_of_str y); [|cbn; auto].
  exfalso. intuition discriminate.
Qed.

(** A line with a record is folded into the state as the specification
    says. *)
Lemma handle_line_store (line : str) (r : Spec.record) (self : state) :
  Spec.parse (strip line) = Some r ->
  List.length (trail_x self) = List.length (trail_y self) ->
  handle_line line self = Spec.store r self.
Proof.
  unfold Spec.parse, handle_line. intros H Hlen.
  destruct (existsb (startswith (strip line)) non_data); [discriminate|].
  destruct (strip line) as [|c0 l0] eqn:El; [discriminate|].
  rewrite <- El in *. rewrite El at 1. cbn [truthy negb andb].
  destruct (split COMMA (strip line)) as [|p0 [|a [|b [|c [|d [|x [|y [|z ps]]]]]]]];
    try discriminate.
  cbn [List.length Nat.eqb].
  destruct (float_of_str a) eqn:Ha; [|discriminate].
  destruct (float_of_str b) eqn:Hb; [|discriminate].
  destruct (float_of_str c) eqn:Hc; [|discriminate].
  destruct (float_of_str d) eqn:Hd; [|discriminate].
  destruct (float_of_str x) eqn:Hx; [|discriminate].
  destruct (float_of_str y) eqn:Hy; [|discriminate].
  injection H as <-. apply store_fields_ok; assumption.
Qed.

(** A line without a record leaves the trail and the buffer alone. *)
Lemma handle_line_rejected (line : str) (self : state) :
  Spec.parse (strip line) = None ->
  trail_x (handle_line line self) = trail_x self
  /\ trail_y (handle_line line self) = trail_y self
  /\ buffer (handle_line line self) = buffer self.
Proof.
  unfold Spec.parse, handle_line. intros H.
  destruct (truthy (strip line)); [|auto].
  destruct (existsb (startswith (strip line)) non_data); [cbn; auto|].
  cbn [negb andb].
  destruct (split COMMA (strip line)) as [|p0 [|a [|b [|c [|d [|x [|y [|z ps]]]]]]]];
    cbn [List.length Nat.eqb]; auto.
  apply store_fields_failed.
  destruct (float_of_str a); [|auto].
  destruct (float_of_str b); [|auto].
  destruct (float_of_str c); [|auto].
  destruct (float_of_str d); [|auto].
  destruct (float_of_str x); [|auto 6].
  destruct (float_of_str y); [discriminate|auto 6].
Qed.

(** The loop body never touches the buffer attribute. *)
Lemma handle_line_buffer (line : str) (self : state) :
  buffer (handle_line line self) = buffer self.
Proof.
  destruct (Spec.parse (strip line)) as [r|] eqn:E.
  - unfold handle_line.
    destruct (truthy (strip line) && negb (existsb (startswith (strip line)) non_data));
      [|reflexivity].
    destruct (split COMMA (strip line)) as [|p0 [|a [|b [|c [|d [|x [|y [|z ps]]]]]]]];
      cbn [List.length Nat.eqb]; try reflexivity.
    run_block.
    destruct (float_of_str a) as [va|]; [|reflexivity].
    destruct (float_of_str b) as [vb|]; [|reflexivity].
    destruct (float_of_str c) as [vc|]; [|reflexivity].
    destruct (float_of_str d) as [vd|]; [|reflexivity].
    destruct (float_of_str x) as [vx|]; [|reflexivity].
    destruct (float_of_str y) as [vy|]; [|reflexivity].
    cbn. destruct (20 <? List.length (trail_x self ++ [vx]))%nat; cbn;
      [|reflexivity].
    destruct (trail_x self ++ [vx]); cbn; [reflexivity|].
    destruct (trail_y self ++ [vy]); reflexivity.
  - apply handle_line_rejected, E.
Qed.

Lemma handle_line_aligned (line : str) (self : state) :
  trails_aligned self -> trails_aligned (handle_line line self).
Proof.
  unfold trails_aligned. intros H.
  destruct (Spec.parse (strip line)) as [r|] eqn:E.
  - rewrite (handle_line_store line r self E H). simpl. unfold Spec.push. rewrite <- H.
    destruct (20 <=? List.length (trail_x self))%nat eqn:F.
    + apply Nat.leb_le in F.
      destruct (trail_x self) as [|hx tx]; [simpl in F; lia|].
      destruct (trail_y self) as [|hy ty]; [discriminate|].
      simpl in *. rewrite !length_app. simpl. lia.
    + rewrite !length_app. simpl. lia.
  - destruct (handle_line_rejected line self E) as (-> & -> & _). exact H.
Qed.

(** A line that is empty, that is a diagnostic message or that has not
    seven fields is passed over: the state stays as it is. *)
Lemma handle_line_skipped (line : str) (self : state) :
  truthy (strip line) = false
  \/ existsb (startswith (strip line)) non_data = true
  \/ List.length (split COMMA (strip line)) <> 7 ->
  handle_line line self = self.
Proof.
  unfold handle_line. intros [H|[H|H]].
  - rewrite H. reflexivity.
  - rewrite H, andb_false_r. reflexivity.
  - apply Nat.eqb_neq in H. rewrite H.
    destruct (truthy (strip line) && negb (existsb (startswith (strip line)) non_data));
      reflexivity.
Qed.

(** [read_data] keeps the two trails at the same length. *)
Lemma read_data_aligned (waiting : list byte) (self : state) :
  trails_aligned self -> trails_aligned (read_data waiting self).
Proof.
  intros H. unfold read_data.
  destruct (0 <? in_waiting waiting)%nat; [|assumption].
  destruct (read_chunk waiting) as [chunk|]; [|assumption].
  pose proof (line_loop_invariant state handle_line trails_aligned
                handle_line_aligned (buffer self ++ chunk) self H) as Hinv.
  destruct (line_loop handle_line (buffer self ++ chunk) self) as [b s'].
  exact Hinv.
Qed.

End HandleLine.

(* ===================================================================== *)
(** * Comparisons of binary64 numbers                                     *)
(* ===================================================================== *)

Section Comparisons.

Lemma SFcompare_antisym (a b : float) :
  SFcompare a b = option_map CompOpp (SFcompare b a).
Proof.
  destruct a as [sa|sa| |sa ma ea], b as [sb|sb| |sb mb eb]; simpl;
    try reflexivity;
    try (destruct sa; reflexivity); try (destruct sb; reflexivity);
    try (destruct sa, sb; reflexivity).
  destruct sa, sb; try reflexivity.
  - rewrite (Z.compare_antisym eb ea).
    destruct (Z.compare eb ea); simpl; try reflexivity.
    do 2 f_equal. symmetry. exact (Pos.compare_cont_antisym mb ma Eq).
  - rewrite (Z.compare_antisym eb ea).
    destruct (Z.compare eb ea); simpl; try reflexivity.
    f_equal. symmetry. exact (Pos.compare_cont_antisym mb ma Eq).
Qed.

Lemma SFcompare_defined (a b : float) :
  is_nan a = false -> is_nan b = false -> exists c, SFcompare a b = Some c.
Proof.
  destruct a, b; simpl; intros Ha Hb; try discriminate; eauto.
Qed.

(** Not below means above or equal, for numbers that are not NaN. *)
Lemma not_lt_ge (a b : float) :
  is_nan a = false -> is_nan b = false -> SFltb a b = false -> SFleb b a = true.
Proof.
  intros Ha Hb. unfold SFltb, SFleb. rewrite (SFcompare_antisym b a).
  destruct (SFcompare_defined a b Ha Hb) as [c ->]. destruct c; simpl; congruence.
Qed.

Lemma c_1_0_value : Visualizer.c_1_0 = S754_finite false 4503599627370496 (-52).
Proof. vm_compute. reflexivity. Qed.

Lemma c_0_3_value : Visualizer.c_0_3 = S754_finite false 5404319552844595 (-54).
Proof. vm_compute. reflexivity. Qed.

Lemma one_value : of_int 1 = S754_finite false 4503599627370496 (-52).
Proof. vm_compute. reflexivity. Qed.

(** A total above [1.0] is positive, is not zero, and is not below [1]. *)
Lemma above_one (t : float) :
  fgt t Visualizer.c_1_0 = true ->
  fabs t = t /\ is_zero t = false /\ max t (of_int 1) = t.
Proof.
  unfold fgt, max, fgt. rewrite one_value, c_1_0_value. intros H.
  assert (SFltb t (S754_finite false 4503599627370496 (-52)) = false) as Hn.
  { unfold SFltb in *. rewrite SFcompare_antisym.
    destruct (SFcompare (S754_finite false 4503599627370496 (-52)) t) as [[| |]|];
      try discriminate. reflexivity. }
  rewrite Hn. unfold SFltb in H.
  destruct t as [s|s| |s m e]; simpl in H; try discriminate.
  - destruct s; [discriminate|]. repeat split.
  - destruct s; [discriminate|]. repeat split.
Qed.

(** The opacity, unless it is a NaN, lies between [0.3] and [1.0]. *)
Lemma clamp_bounds (x : float) :
  let a := min (max x Visualizer.c_0_3) Visualizer.c_1_0 in
  if is_nan x then a = S754_nan
  else SFleb Visualizer.c_0_3 a = true /\ SFleb a Visualizer.c_1_0 = true.
Proof.
  rewrite c_0_3_value, c_1_0_value. unfold min, max, fgt, flt.
  destruct (is_nan x) eqn:Hx.
  - destruct x; try discriminate. reflexivity.
  - destruct (SFltb x (S754_finite false 5404319552844595 (-54))) eqn:Hlow.
    + vm_compute. split; reflexivity.
    + destruct (SFltb (S754_finite false 4503599627370496 (-52)) x) eqn:Hhigh.
      * vm_compute. split; reflexivity.
      * split; apply not_lt_ge; auto.
Qed.

End Comparisons.

(* ===================================================================== *)
(** * Rounding gives a number                                             *)
(* ===================================================================== *)

Section RoundingNotNaN.

Lemma shr_1_nonneg (mrs : shr_record) :
  (0 <= shr_m mrs)%Z -> (0 <= shr_m (shr_1 mrs))%Z.
Proof.
  destruct mrs as [m r s]. simpl. intros H.
  destruct m as [|p|p]; [simpl; lia | destruct p; simpl; lia | lia].
Qed.

Lemma iter_shr_1_nonneg (p : positive) :
  forall mrs, (0 <= shr_m mrs)%Z -> (0 <= shr_m (iter_pos shr_1 p mrs))%Z.
Proof.
  induction p as [p IH|p IH|]; intros mrs H; simpl.
  - apply IH, IH, shr_1_nonneg, H.
  - apply IH, IH, H.
  - apply shr_1_nonneg, H.
Qed.

Lemma shr_fexp_nonneg (m e : Z) (l : location) :
  (0 <= m)%Z -> (0 <= shr_m (fst (shr_fexp prec emax m e l)))%Z.
Proof.
  intros H. unfold shr_fexp, shr.
  assert (0 <= shr_m (shr_record_of_loc m l))%Z as H0
    by (destruct l as [|[| |]]; exact H).
  destruct (fexp prec emax (Zdigits2 m + e) - e)%Z; simpl;
    [exact H0 | apply iter_shr_1_nonneg, H0 | exact H0].
Qed.

Lemma round_nearest_even_nonneg (m : Z) (l : location) :
  (0 <= m)%Z -> (0 <= round_nearest_even m l)%Z.
Proof.
  intros H. destruct l as [|[| |]]; simpl; try lia.
  destruct (Z.even m); lia.
Qed.

(** Rounding a mantissa that is not negative never gives a NaN. *)
Lemma binary_round_aux_number (sx : bool) (mx ex : Z) (lx : location) :
  (0 <= mx)%Z -> is_nan (binary_round_aux prec emax sx mx ex lx) = false.
Proof.
  intros H. unfold binary_round_aux.
  pose proof (shr_fexp_nonneg mx ex lx H) as H1.
  destruct (shr_fexp prec emax mx ex lx) as [mrs' e']. simpl in H1.
  pose proof (shr_fexp_nonneg _ e' loc_Exact
                (round_nearest_even_nonneg _ (loc_of_shr_record mrs') H1)) as H2.
  destruct (shr_fexp prec emax
              (round_nearest_even (shr_m mrs') (loc_of_shr_record mrs')) e' loc_Exact)
    as [mrs'' e'']. simpl in H2.
  destruct (shr_m mrs'') as [|p|p]; [reflexivity | | lia].
  destruct (e'' <=? emax - prec)%Z; reflexivity.
Qed.

Lemma binary_round_number (sx : bool) (mx : positive) (ex : Z) :
  is_nan (binary_round prec emax sx mx ex) = false.
Proof.
  unfold binary_round.
  destruct (shl_align mx ex (fexp prec emax (Z.pos (digits2_pos mx) + ex))) as [mz ez].
  apply binary_round_aux_number. lia.
Qed.

(** A sum with a finite number, a product with a finite number and a
    quotient of finite numbers are NaN only if an operand is. *)
Lemma fadd_finite_number (s : bool) (m : positive) (e : Z) (y : float) :
  is_nan y = false -> is_nan (fadd (S754_finite s m e) y) = false.
Proof.
  intros Hy. destruct y as [sy|sy| |sy my ey]; try discriminate; try reflexivity.
  unfold fadd, SFadd, binary_normalize.
  match goal with |- context [match ?z with Z0 => _ | Zpos _ => _ | Zneg _ => _ end] =>
    destruct z end; [reflexivity | apply binary_round_number | apply binary_round_number].
Qed.

Lemma fmul_finite_number (x : float) (s : bool) (m : positive) (e : Z) :
  is_nan x = false -> is_nan (fmul x (S754_finite s m e)) = false.
Proof.
  intros Hx. destruct x as [sx|sx| |sx mx ex]; try discriminate; try reflexivity.
  unfold fmul, SFmul. apply binary_round_aux_number. lia.
Qed.

Lemma fdiv_finite_number (x : float) (s : bool) (m : positive) (e : Z) :
  is_nan x = false -> is_infinite x = false ->
  is_nan (SFdiv prec emax x (S754_finite s m e)) = false.
Proof.
  intros Hx Hi. destruct x as [sx|sx| |sx mx ex]; try discriminate; try reflexivity.
  unfold SFdiv, SFdiv_core_binary.
  match goal with |- context [Z.div_eucl ?a ?b] =>
    assert (0 <= a)%Z as Ha;
    [| pose proof (Z.div_pos a b Ha ltac:(lia)) as Hq; unfold Z.div in Hq;
       destruct (Z.div_eucl a b) as [q r] ]
  end.
  - match goal with |- (0 <= match ?z with Z0 => _ | Zpos _ => _ | Zneg _ => _ end)%Z =>
      destruct z end; try lia. apply Z.shiftl_nonneg. lia.
  - apply binary_round_aux_number. exact Hq.
Qed.

(** The opacity computed for a force that is a finite number, under a
    total above [1.0], is a number. *)
Lemma opacity_number (total force : float) :
  fgt total Visualizer.c_1_0 = true ->
  is_nan force = false -> is_infinite force = false ->
  is_nan (fadd Visualizer.c_0_3
            (fmul (SFdiv prec emax (fabs force) total) Visualizer.c_0_7)) = false.
Proof.
  intros H Hn Hi.
  assert (is_nan (SFdiv prec emax (fabs force) total) = false) as Hq.
  { destruct (above_one _ H) as (Habs & _ & _).
    destruct total as [st|st| |st m e]; try discriminate.
    - destruct force; try discriminate; reflexivity.
    - apply fdiv_finite_number; destruct force; try discriminate; reflexivity. }
  assert (Visualizer.c_0_7 = S754_finite false 6305039478318694 (-53)) as E7
    by (vm_compute; reflexivity).
  rewrite c_0_3_value, E7.
  apply fadd_finite_number, fmul_finite_number, Hq.
Qed.

(** An opacity between [0.3] and [1.0] is accepted by [set_alpha]. *)
Lemma set_alpha_accepts (a : float) :
  SFleb Visualizer.c_0_3 a = true -> SFleb a Visualizer.c_1_0 = true ->
  Visualizer.set_alpha a = Some a.
Proof.
  rewrite c_0_3_value, c_1_0_value. intros Hlo Hhi.
  unfold Visualizer.set_alpha. rewrite one_value, Hhi.
  assert (SFleb (of_int 0) a = true) as H0.
  { destruct a as [s|s| |s m e]; try discriminate.
    - destruct s; [discriminate | reflexivity].
    - destruct s; [discriminate | reflexivity]. }
  rewrite H0. reflexivity.
Qed.

(** A NaN is refused by [set_alpha]. *)
Lemma set_alpha_refuses_nan : Visualizer.set_alpha S754_nan = None.
Proof. reflexivity. Qed.

Lemma fadd_nan_l (x : float) : fadd S754_nan x = S754_nan.
Proof. reflexivity. Qed.

Lemma fadd_nan_r (x : float) : fadd x S754_nan = S754_nan.
Proof. destruct x; reflexivity. Qed.

(** Under a total above [1.0] no force is a NaN. *)
Lemma above_one_forces (self : Visualizer.state) :
  fgt (Visualizer.total_force self) Visualizer.c_1_0 = true ->
  Forall (fun f => is_nan f = false) (forces_of self).
Proof.
  intros H.
  assert (Visualizer.total_force self <> S754_nan) as Ht.
  { intros E. rewrite E in H. unfold fgt in H. rewrite c_1_0_value in H.
    discriminate. }
  unfold Visualizer.total_force in Ht. unfold forces_of.
  repeat constructor.
  all: match goal with |- is_nan ?f = false =>
         destruct f eqn:E; try reflexivity; exfalso; apply Ht
       end.
  all: rewrite ?fadd_nan_l, ?fadd_nan_r; reflexivity.
Qed.

End RoundingNotNaN.

(* ===================================================================== *)
(** * One force cell                                                      *)
(* ===================================================================== *)

Section ForceCell.
Import Visualizer.

(** Above the threshold, a force that is a finite number gets its share
    shown, at an opacity between [0.3] and [1.0]. *)
Lemma update_cell_share (total force : float) :
  fgt total c_1_0 = true ->
  is_nan force = false -> is_infinite force = false ->
  update_cell total force = Some (share_cell total force)
  /\ SFleb c_0_3 (alpha (share_cell total force)) = true
  /\ SFleb (alpha (share_cell total force)) c_1_0 = true.
Proof.
  intros H Hn Hi. destruct (above_one _ H) as (Habs & Hz & Hmax).
  pose proof (clamp_bounds
                (fadd c_0_3 (fmul (SFdiv prec emax (fabs force) total) c_0_7))) as B.
  cbv zeta in B. rewrite (opacity_number total force H Hn Hi) in B.
  destruct B as [Blo Bhi].
  assert (alpha (share_cell total force)
          = min (max (fadd c_0_3 (fmul (SFdiv prec emax (fabs force) total) c_0_7))
                     c_0_3) c_1_0) as Ea
    by (unfold share_cell, clamp, fdiv; cbn [alpha]; rewrite Habs; reflexivity).
  rewrite Ea. split; [|split; assumption].
  unfold update_cell, truediv. rewrite H, Habs, Hmax, Hz.
  rewrite (set_alpha_accepts _ Blo Bhi).
  unfold share_cell, clamp, fdiv. rewrite Habs. reflexivity.
Qed.

(** At or below the threshold every force gets the blank cell. *)
Lemma update_cell_blank (total force : float) :
  fgt total c_1_0 = false -> update_cell total force = Some (blank_cell force).
Proof. intros H. unfold update_cell. rewrite H. reflexivity. Qed.

(** A sum with an infinite term is infinite or a NaN. *)
Lemma fadd_not_finite (x y : float) :
  is_infinite x || is_nan x = true \/ is_infinite y || is_nan y = true ->
  is_infinite (fadd x y) || is_nan (fadd x y) = true.
Proof.
  intros [H|H]; destruct x as [sx|sx| |sx mx ex], y as [sy|sy| |sy my ey];
    try discriminate; try reflexivity; destruct sx, sy; reflexivity.
Qed.

(** With an infinite force, a total above the threshold is the positive
    infinity. *)
Lemma total_with_infinite_force (self : state) :
  fgt (total_force self) c_1_0 = true ->
  Exists (fun f => is_infinite f = true) (forces_of self) ->
  total_force self = S754_infinity false.
Proof.
  intros H Hex.
  assert (is_infinite (total_force self) || is_nan (total_force self) = true) as Hnf.
  { unfold total_force. unfold forces_of in Hex.
    repeat match goal with
           | Hx : Exists _ (_ :: _) |- _ => apply Exists_cons in Hx as [Hx|Hx]
           | Hx : Exists _ [] |- _ => apply Exists_nil in Hx; contradiction
           end.
    - apply fadd_not_finite. left. apply fadd_not_finite. left.
      apply fadd_not_finite. right. rewrite Hex. reflexivity.
    - apply fadd_not_finite. left. apply fadd_not_finite. left.
      apply fadd_not_finite. left. rewrite Hex. reflexivity.
    - apply fadd_not_finite. left. apply fadd_not_finite. right.
      rewrite Hex. reflexivity.
    - apply fadd_not_finite. right. rewrite Hex. reflexivity. }
  destruct (above_one _ H) as (Habs & _ & _).
  destruct (total_force self) as [s|s| |s m e]; try discriminate.
  simpl in Habs. injection Habs as Hs. subst s. reflexivity.
Qed.

(** Under an infinite total an infinite force has the share [inf/inf],
    not a number, which [set_alpha] refuses. *)
Lemma update_cell_infinite (force : float) :
  is_infinite force = true ->
  update_cell (S754_infinity false) force = None.
Proof. destruct force as [s|s| |s m e]; try discriminate. intros _. reflexivity. Qed.

Lemma update_forces_length (self : state) (cells : list cell) :
  update_forces self = Some cells -> List.length cells = 4.
Proof.
  unfold update_forces. cbn [for_each].
  destruct (update_cell _ (f2 self)); [|discriminate].
  destruct (update_cell _ (f1 self)); [|discriminate].
  destruct (update_cell _ (f3 self)); [|discriminate].
  destruct (update_cell _ (f4 self)); [|discriminate].
  intros H. injection H as <-. reflexivity.
Qed.

(** The force loop completes when no force is infinite. *)
Lemma update_forces_finite (self : state) :
  Forall (fun f => is_infinite f = false) (forces_of self) ->
  update_forces self =
  Some (map (if fgt (total_force self) c_1_0
             then share_cell (total_force self) else blank_cell)
            (forces_of self)).
Proof.
  intros Hfin. unfold update_forces. fold (forces_of self).
  destruct (fgt (total_force self) c_1_0) eqn:H.
  - pose proof (above_one_forces self H) as Hnan.
    revert Hfin Hnan. generalize (forces_of self). intros l.
    induction l as [|f l IH]; intros Hfin Hnan; [reflexivity|].
    inversion Hfin; subst. inversion Hnan; subst.
    cbn [for_each map].
    destruct (update_cell_share _ f H) as (-> & _); try assumption.
    rewrite IH by assumption. reflexivity.
  - clear Hfin. generalize (forces_of self). intros l.
    induction l as [|f l IH]; [reflexivity|].
    cbn [for_each map]. rewrite (update_cell_blank _ f H), IH. reflexivity.
Qed.

(** The force loop raises when the total is above the threshold and a
    force is infinite. *)
Lemma update_forces_infinite (self : state) :
  fgt (total_force self) c_1_0 = true ->
  Exists (fun f => is_infinite f = true) (forces_of self) ->
  update_forces self = None.
Proof.
  intros H Hex. unfold update_forces. fold (forces_of self).
  rewrite (total_with_infinite_force self H Hex).
  revert Hex. generalize (forces_of self). intros l.
  induction l as [|f l IH]; intros Hex; [inversion Hex|].
  cbn [for_each]. apply Exists_cons in Hex as [Hf|Hl].
  - rewrite (update_cell_infinite f Hf). reflexivity.
  - destruct (update_cell (S754_infinity false) f); [|reflexivity].
    rewrite (IH Hl). reflexivity.
Qed.

End ForceCell.

(* ===================================================================== *)
(** * The visualiser over a run of polls                                  *)
(* ===================================================================== *)

Section Run.
Import Visualizer.

Lemma set_buffer_twice (b b' : str) (self : state) :
  set_buffer b' (set_buffer b self) = set_buffer b' self.
Proof. reflexivity. Qed.

Lemma set_buffer_same (self : state) : set_buffer (buffer self) self = self.
Proof. destruct self; reflexivity. Qed.

(** The loop body works the same whatever the buffer attribute holds. *)
Lemma handle_line_set_buffer (line b : str) (self : state) :
  handle_line line (set_buffer b self) = set_buffer b (handle_line line self).
Proof.
  unfold handle_line.
  destruct (truthy (strip line) && negb (existsb (startswith (strip line)) non_data));
    [|reflexivity].
  destruct (List.length (split COMMA (strip line)) =? 7)%nat; [|reflexivity].
  unfold try_pass, store_fields, float_at, pop0, bind, get, assign, ret, raise.
  destruct (nth_error (split COMMA (strip line)) 1) as [p1|]; [|reflexivity].
  destruct (float_of_str p1) as [v1|]; [|reflexivity].
  destruct (nth_error (split COMMA (strip line)) 2) as [p2|]; [|reflexivity].
  destruct (float_of_str p2) as [v2|]; [|reflexivity].
  destruct (nth_error (split COMMA (strip line)) 3) as [p3|]; [|reflexivity].
  destruct (float_of_str p3) as [v3|]; [|reflexivity].
  destruct (nth_error (split COMMA (strip line)) 4) as [p4|]; [|reflexivity].
  destruct (float_of_str p4) as [v4|]; [|reflexivity].
  destruct (nth_error (split COMMA (strip line)) 5) as [p5|]; [|reflexivity].
  destruct (float_of_str p5) as [v5|]; [|reflexivity].
  destruct (nth_error (split COMMA (strip line)) 6) as [p6|]; [|reflexivity].
  destruct (float_of_str p6) as [v6|]; [|reflexivity].
  cbn. destruct (20 <? List.length (trail_x self ++ [v5]))%nat; [|reflexivity].
  cbn. destruct (trail_x self ++ [v5]); [reflexivity|].
  cbn. destruct (trail_y self ++ [v6]); reflexivity.
Qed.

Lemma fold_handle_set_buffer (lines : list str) (b : str) (self : state) :
  fold_left (fun s line => handle_line line s) lines (set_buffer b self)
  = set_buffer b (fold_left (fun s line => handle_line line s) lines self).
Proof.
  revert self. induction lines as [|l lines IH]; intros self; simpl; [reflexivity|].
  rewrite handle_line_set_buffer. apply IH.
Qed.

(** The visualiser after any sequence of ticks, in terms of the text
    received so far: the loop body has run on every terminated segment. *)
Lemma ticks_from (polls : list (list byte)) :
  forall (self : state) (text : str),
    self = set_buffer (snd (segments text))
             (fold_left (fun s line => handle_line line s) (fst (segments text)) initial) ->
    fold_left (fun s waiting => fst (update waiting s)) polls self
    = set_buffer (snd (segments (text ++ received polls)))
        (fold_left (fun s line => handle_line line s)
           (fst (segments (text ++ received polls))) initial).
Proof.
  induction polls as [|w polls IH]; intros self text Hself; simpl.
  - unfold received. simpl. rewrite app_nil_r. exact Hself.
  - unfold received. simpl. rewrite app_assoc. apply IH.
    rewrite read_data_segments
      by (rewrite Hself; simpl; apply segments_lf_free).
    rewrite Hself at 1 2 3. cbn [buffer set_buffer].
    rewrite fold_handle_set_buffer, set_buffer_twice.
    rewrite (segments_app text (decoded w)). cbn [fst snd].
    rewrite fold_left_app. reflexivity.
Qed.

Lemma ticks_segments (polls : list (list byte)) :
  ticks polls
  = set_buffer (snd (segments (received polls)))
      (fold_left (fun s line => handle_line line s)
         (fst (segments (received polls))) initial).
Proof. unfold ticks. apply (ticks_from polls initial []). reflexivity. Qed.

End Run.

(* ===================================================================== *)
(** * The trail                                                           *)
(* ===================================================================== *)

Section Trail.
Import Visualizer.

Lemma tl_skipn (A : Type) (k : nat) (l : list A) : tl (skipn k l) = skipn (S k) l.
Proof.
  revert l. induction k as [|k IH]; intros [|x l]; try reflexivity.
  apply (IH l).
Qed.

(** Pushing onto the last twenty keeps the last twenty. *)
Lemma push_lastn (X : list float) (v : float) :
  Spec.push (lastn 20 X) v = lastn 20 (X ++ [v]).
Proof.
  unfold Spec.push, lastn. rewrite length_skipn, length_app. cbn [List.length].
  destruct (Nat.leb_spec 20 (List.length X - (List.length X - 20))) as [H|H].
  - replace (List.length X + 1 - 20) with (S (List.length X - 20)) by lia.
    rewrite tl_skipn. rewrite skipn_app.
    replace (S (List.length X - 20) - List.length X) with 0 by lia.
    reflexivity.
  - replace (List.length X - 20) with 0 by lia.
    replace (List.length X + 1 - 20) with 0 by lia. reflexivity.
Qed.

Lemma lastn_length (A : Type) (n : nat) (l : list A) :
  List.length (lastn n l) = Nat.min (List.length l) n.
Proof. unfold lastn. rewrite length_skipn. lia. Qed.

Lemma records_app (a b : list str) : records (a ++ b) = records a ++ records b.
Proof.
  induction a as [|l a IH]; simpl; [reflexivity|].
  destruct (Spec.parse (strip l)); rewrite IH; reflexivity.
Qed.

(** The trail holds the last twenty centres of pressure of the records
    folded in so far. *)
Lemma trail_records (lines done : list str) (self : state) :
  trail_x self = lastn 20 (map Spec.COPx (records done)) ->
  trail_y self = lastn 20 (map Spec.COPy (records done)) ->
  let self' := fold_left (fun s line => handle_line line s) lines self in
  trail_x self' = lastn 20 (map Spec.COPx (records (done ++ lines)))
  /\ trail_y self' = lastn 20 (map Spec.COPy (records (done ++ lines))).
Proof.
  revert done self. induction lines as [|l lines IH]; intros done self Hx Hy; simpl.
  - rewrite app_nil_r. split; assumption.
  - replace (done ++ l :: lines) with ((done ++ [l]) ++ lines)
      by (rewrite <- app_assoc; reflexivity).
    apply IH; rewrite records_app; simpl.
    + destruct (Spec.parse (strip l)) as [r|] eqn:E.
      * rewrite (handle_line_store l r self E)
          by (rewrite Hx, Hy, !lastn_length, !length_map; reflexivity).
        simpl. rewrite Hx, map_app. apply push_lastn.
      * destruct (handle_line_rejected l self E) as (-> & _).
        rewrite app_nil_r. exact Hx.
    + destruct (Spec.parse (strip l)) as [r|] eqn:E.
      * rewrite (handle_line_store l r self E)
          by (rewrite Hx, Hy, !lastn_length, !length_map; reflexivity).
        simpl. rewrite Hy, map_app. apply push_lastn.
      * destruct (handle_line_rejected l self E) as (_ & -> & _).
        rewrite app_nil_r. exact Hy.
Qed.

(** The trail after any sequence of ticks. *)
Lemma ticks_trail (polls : list (list byte)) :
  let recs := records (fst (segments (received polls))) in
  trail_x (ticks polls) = lastn 20 (map Spec.COPx recs)
  /\ trail_y (ticks polls) = lastn 20 (map Spec.COPy recs).
Proof.
  rewrite ticks_segments. cbn [trail_x trail_y set_buffer].
  apply (trail_records (fst (segments (received polls))) [] initial); reflexivity.
Qed.

(** The readings after a line with a record are those of the record. *)
Lemma handle_line_readings (line : str) (r : Spec.record) (self : state) :
  Spec.parse (strip line) = Some r ->
  let self' := handle_line line self in
  f1 self' = Spec.F1 r /\ f2 self' = Spec.F2 r /\ f3 self' = Spec.F3 r
  /\ f4 self' = Spec.F4 r /\ copx self' = Spec.COPx r /\ copy self' = Spec.COPy r.
Proof.
  intros H self'. subst self'. revert H. unfold Spec.parse, handle_line.
  destruct (existsb (startswith (strip line)) non_data); [discriminate|].
  assert (split COMMA [] = [[]]) as Hnil by reflexivity.
  destruct (truthy (strip line)) eqn:Ht;
    [|destruct (strip line); [rewrite Hnil|]; discriminate].
  cbn [negb andb].
  destruct (split COMMA (strip line)) as [|p0 [|a [|b [|c [|d [|x [|y [|z ps]]]]]]]];
    try discriminate.
  cbn [List.length Nat.eqb].
  unfold try_pass, store_fields, float_at, pop0, bind, get, assign, ret, raise.
  cbn [nth_error].
  destruct (float_of_str a) as [va|]; [|discriminate].
  destruct (float_of_str b) as [vb|]; [|discriminate].
  destruct (float_of_str c) as [vc|]; [|discriminate].
  destruct (float_of_str d) as [vd|]; [|discriminate].
  destruct (float_of_str x) as [vx|]; [|discriminate].
  destruct (float_of_str y) as [vy|]; [|discriminate].
  intros H. injection H as <-. cbn.
  destruct (20 <? List.length (trail_x self ++ [vx]))%nat; cbn; [|repeat split].
  destruct (trail_x self ++ [vx]); cbn; [repeat split|].
  destruct (trail_y self ++ [vy]); cbn; repeat split.
Qed.

End Trail.

(* ===================================================================== *)
(** * More on decoding                                                    *)
(* ===================================================================== *)

Section DecodingHandlers.

Lemma decoded_app (p q : list byte) (tp : str) :
  utf8_decode strict p = Some tp -> decoded (p ++ q) = tp ++ decoded q.
Proof.
  intros H. pose proof (utf8_decode_prefix p q tp H) as E.
  rewrite (decoded_ignore q) in E. simpl in E.
  pose proof (decoded_ignore (p ++ q)) as E'. congruence.
Qed.

Lemma decoded_strict (p : list byte) (tp : str) :
  utf8_decode strict p = Some tp -> decoded p = tp.
Proof.
  intros H. rewrite <- (app_nil_r p). rewrite (decoded_app p [] tp H).
  apply app_nil_r.
Qed.

(** The handlers side by side: ['ignore'] gives what ['replace'] gives
    without the replacement characters put in for the errors, and there is
    at least one of those when the data is not well formed. *)
Lemma ignore_versus_replace (w : list byte) :
  exists text shown,
    utf8_decode ignore w = Some text /\ utf8_decode replace w = Some shown
    /\ less_replacements text shown
    /\ (List.length text <= List.length shown)%nat
    /\ (utf8_decode strict w = None -> (List.length text < List.length shown)%nat).
Proof.
  induction w as [w IH] using strong_list_ind.
  destruct w as [|b1 s1].
  { exists [], []. repeat split; try constructor. discriminate. }
  simpl.
  repeat match goal with
         | |- context [if ?c then _ else _] => destruct c eqn:?
         | |- context [match ?l with [] => _ | _ :: _ => _ end] =>
           destruct l as [|? ?]; lazy beta match
         end.
  all: unfold emit, on_error.
  all: try (exists [], [REPLACEMENT]; repeat split;
            [repeat constructor | simpl; lia | simpl; lia]).
  all: match goal with
       | |- context [utf8_decode ignore ?s'] =>
         destruct (IH s') as (ti & tr & -> & -> & Hd & Hle & Hlt); [simpl; lia|]
       end.
  all: simpl; eexists; eexists; (split; [reflexivity|]); (split; [reflexivity|]).
  all: repeat split; try (constructor; assumption); simpl; try lia.
  all: intros Hs; destruct (utf8_decode strict _); [discriminate|];
       specialize (Hlt eq_refl); lia.
Qed.

(** The decoder at the front of the data: either a well-formed sequence
    of [k] bytes, which every handler turns into its character, or an
    error range of [k] bytes, which is handed to the handler; decoding goes
    on behind the [k] bytes. *)
Lemma utf8_head (b1 : byte) (s1 : list byte) :
  (exists k c,
      (1 <= k <= List.length (b1 :: s1))%nat
      /\ utf8_decode strict (firstn k (b1 :: s1)) = Some [c]
      /\ forall h, utf8_decode h (b1 :: s1)
                   = emit c (utf8_decode h (skipn k (b1 :: s1))))
  \/ (exists k,
         (1 <= k <= List.length (b1 :: s1))%nat
         /\ forall h, utf8_decode h (b1 :: s1)
                      = on_error h (utf8_decode h (skipn k (b1 :: s1)))).
Proof.
  remember (utf8_decode strict (b1 :: s1)) as r eqn:Hr. simpl in Hr.
  repeat match type of Hr with
         | context [if ?c then _ else _] => destruct c eqn:?
         | context [match ?l with [] => _ | _ :: _ => _ end] =>
           destruct l as [|? ?]; lazy beta match in Hr
         end.
  all: clear Hr r.
  all: first
         [ left; (exists 1 + exists 2 + exists 3 + exists 4); eexists;
           split; [simpl; lia|];
           split;
           [ cbn [firstn]; simpl;
             repeat match goal with
                    | H : ?c = _ |- context [?c] => rewrite H
                    end;
             reflexivity
           | intros h; cbn [skipn]; simpl;
             repeat match goal with
                    | H : ?c = _ |- context [?c] => rewrite H
                    end;
             reflexivity ]
         | right; (exists 1 + exists 2 + exists 3 + exists 4);
           split; [simpl; lia|];
           intros h; cbn [skipn]; simpl;
           repeat match goal with
                  | H : ?c = _ |- context [?c] => rewrite H
                  end;
           reflexivity ].
Qed.

(** Well-formed data that decodes to nothing is empty. *)
Lemma strict_nil (l : list byte) : utf8_decode strict l = Some [] -> l = [].
Proof.
  destruct l as [|b1 s1]; [reflexivity|]. simpl.
  repeat match goal with
         | |- context [if ?c then _ else _] => destruct c eqn:?
         | |- context [match ?l with [] => _ | _ :: _ => _ end] =>
           destruct l as [|? ?]; lazy beta match
         end.
  all: try discriminate.
  all: unfold emit; match goal with
                    | |- option_map _ ?k = _ -> _ => destruct k; discriminate
                    end.
Qed.

(** Only the bytes [EF BF BD] decode to U+FFFD. *)
Lemma strict_replacement (l : list byte) :
  utf8_decode strict l = Some [REPLACEMENT] -> l = [xef; xbf; xbd].
Proof.
  intros H. destruct l as [|b1 s1]; [discriminate|].
  simpl in H.
  repeat match type of H with
         | context [if ?c then _ else _] => destruct c eqn:?
         | context [match ?l with [] => _ | _ :: _ => _ end] =>
           destruct l as [|? ?]; lazy beta match in H
         end.
  all: try discriminate H.
  all: unfold emit in H; destruct (utf8_decode strict s1) as [r|] eqn:Es;
  try discriminate H; simpl in H; injection H as Hc Hr; subst r.
  all: apply strict_nil in Es; subst s1.
  all: unfold is_continuation, REPLACEMENT in *.
  all: repeat match goal with
              | H : _ || _ = false |- _ => apply orb_false_iff in H; destruct H
              | H : negb _ = false |- _ => apply negb_false_iff in H
              | H : _ && _ = true |- _ => apply andb_true_iff in H; destruct H
              | H : (if ?c then _ else _) = false |- _ => destruct c eqn:?
              | H : (_ =? _)%N = false |- _ => apply N.eqb_neq in H
              | H : (_ <? _)%N = true |- _ => apply N.ltb_lt in H
              | H : (_ <? _)%N = false |- _ => apply N.ltb_ge in H
              | H : (_ <=? _)%N = true |- _ => apply N.leb_le in H
              end.
  all: rewrite ?N.shiftl_mul_pow2 in Hc.
  all: change (2 ^ 6)%N with 64%N in Hc; change (2 ^ 12)%N with 4096%N in Hc;
    change (2 ^ 18)%N with 262144%N in Hc.
  all: try lia.
  all: assert (to_N b1 = 239 /\ to_N b = 191 /\ to_N b0 = 189)%N as (E1 & E2 & E3) by lia.
  all: pose proof (Byte.of_to_N b1) as F1; pose proof (Byte.of_to_N b) as F2;
    pose proof (Byte.of_to_N b0) as F3.
  all: rewrite E1 in F1; rewrite E2 in F2; rewrite E3 in F3.
  all: vm_compute in F1, F2, F3.
  all: injection F1 as <-; injection F2 as <-; injection F3 as <-; reflexivity.
Qed.

(** A replacement character in the text read comes from the bytes
    [EF BF BD], the encoding of U+FFFD itself. *)
Lemma replacement_read_from_bytes (w : list byte) :
  In REPLACEMENT (decoded w) ->
  exists pre suf, w = pre ++ [xef; xbf; xbd] ++ suf.
Proof.
  induction w as [w IH] using strong_list_ind.
  destruct w as [|b1 s1]; [intros []|].
  intros Hin.
  assert (forall k, (1 <= k <= List.length (b1 :: s1))%nat ->
                    In REPLACEMENT (decoded (skipn k (b1 :: s1))) ->
                    exists pre suf, b1 :: s1 = pre ++ [xef; xbf; xbd] ++ suf) as Hrest.
  { intros k Hk Hin'.
    destruct (IH (skipn k (b1 :: s1))) as (pre & suf & E); [|exact Hin'|].
    - rewrite length_skipn. lia.
    - exists (firstn k (b1 :: s1) ++ pre), suf.
      rewrite <- app_assoc, <- E. symmetry. apply firstn_skipn. }
  pose proof (decoded_ignore (b1 :: s1)) as Ew.
  destruct (utf8_head b1 s1) as [(k & c & Hk & Hvalid & Hstep)|(k & Hk & Hstep)].
  - pose proof (Hstep ignore) as Ei.
    rewrite Ew, (decoded_ignore (skipn k (b1 :: s1))) in Ei. simpl in Ei.
    injection Ei as Ei. rewrite Ei in Hin. destruct Hin as [Hc|Hin].
    + subst c. apply strict_replacement in Hvalid.
      exists [], (skipn k (b1 :: s1)). rewrite <- Hvalid.
      symmetry. exact (firstn_skipn k (b1 :: s1)).
    + exact (Hrest k Hk Hin).
  - pose proof (Hstep ignore) as Ei.
    rewrite Ew, (decoded_ignore (skipn k (b1 :: s1))) in Ei. simpl in Ei.
    injection Ei as Ei. rewrite Ei in Hin. exact (Hrest k Hk Hin).
Qed.

(** A text that holds no replacement character and is what another shows
    less some replacement characters is that other less all of them. *)
Lemma less_replacements_all (text shown : str) :
  less_replacements text shown ->
  ~ In REPLACEMENT text ->
  text = filter (fun c => negb (c =? REPLACEMENT)%N) shown.
Proof.
  induction 1 as [|c text shown _ IH|text shown _ IH]; intros Hno.
  - reflexivity.
  - cbn [filter]. destruct (c =? REPLACEMENT)%N eqn:Ec.
    + apply N.eqb_eq in Ec. exfalso. apply Hno. left. exact Ec.
    + cbn [negb]. f_equal. apply IH. intros Hin. apply Hno. right. exact Hin.
  - cbn [filter]. rewrite N.eqb_refl. cbn [negb]. apply IH, Hno.
Qed.

End DecodingHandlers.

(* ===================================================================== *)
(** * The line framer: claims C1, C7, C10                                 *)
(* ===================================================================== *)

(** Both programs in terms of the segments of the received text. *)
Lemma framed (polls : list (list byte)) :
  Receiver.stdout (Receiver.start polls)
  = filter truthy (map strip (fst (segments (received polls))))
  /\ Receiver.buffer (Receiver.start polls) = snd (segments (received polls))
  /\ Visualizer.buffer (ticks polls) = snd (segments (received polls)).
Proof.
  destruct (receiver_run_segments polls Receiver.initial [] eq_refl eq_refl)
    as [Hb Ho].
  cbn [app] in Hb, Ho. unfold Receiver.start.
  fold (receiver_run Receiver.initial polls).
  rewrite Hb, Ho, ticks_segments. repeat split.
Qed.

(** C1, as stated, fails: the yielded lines with their line feeds put back,
    followed by the accumulator, do not reproduce the input.  The bytes
    [" a\n"] yield the single line ["a"] and leave the accumulator empty:
    what is put back together is ["a\n"], the leading blank is gone. *)
Lemma C1_counterexample :
  let input := blit " a" ++ [x0a] in
  let st := Receiver.start [input] in
  Receiver.stdout st = [lit "a"] /\ Receiver.buffer st = []
  /\ rejoin (Receiver.stdout st) (Receiver.buffer st) <> map Byte.to_N input.
Proof.
  vm_compute. repeat split. discriminate.
Qed.

(** C1, amended.  Over any sequence of polls, the text received (every
    chunk decoded on its own, bytes that do not decode left out) is cut at
    every line feed and nothing of it is lost before trimming: the segments
    with a line feed after each, followed by the final accumulator, give the
    received text back exactly; the lines yielded are, in input order, the
    segments trimmed of surrounding white space, those that are empty after
    trimming left out; the accumulator is the text after the last line
    feed.  This holds for the receiver and for the buffer of the visualiser. *)
Theorem C1_framing_keeps_order_and_text (polls : list (list byte)) :
  let text := received polls in
  let st := Receiver.start polls in
  rejoin (fst (segments text)) (Receiver.buffer st) = text
  /\ Receiver.stdout st = filter truthy (map strip (fst (segments text)))
  /\ Receiver.buffer st = snd (segments text)
  /\ Visualizer.buffer (ticks polls) = snd (segments text).
Proof.
  cbv zeta. destruct (framed polls) as (Ho & Hb & Hv).
  rewrite Ho, Hb, Hv. repeat split. apply rejoin_segments.
Qed.

(** C7.  Over any sequence of polls, every line yielded is not empty, is
    its own trimming and holds no line feed; and after the poll the
    accumulator holds no line feed, in the receiver and in the visualiser. *)
Theorem C7_lines_trimmed_buffer_partial (polls : list (list byte)) :
  Forall (fun line => truthy line = true /\ strip line = line
                      /\ contains LF line = false)
         (Receiver.stdout (Receiver.start polls))
  /\ contains LF (Receiver.buffer (Receiver.start polls)) = false
  /\ contains LF (Visualizer.buffer (ticks polls)) = false.
Proof.
  destruct (framed polls) as (Ho & Hb & Hv).
  rewrite Ho, Hb, Hv.
  pose proof (segments_lf_free (received polls)) as [Hsegs Hrest].
  repeat split; try assumption.
  apply Forall_forall. intros line Hin.
  apply filter_In in Hin as [Hin Ht].
  apply in_map_iff in Hin as (g & <- & Hg).
  repeat split.
  - exact Ht.
  - apply strip_idem.
  - apply contains_strip. rewrite Forall_forall in Hsegs. apply Hsegs, Hg.
Qed.

(** C10.  A poll that finds no byte waiting changes nothing: no line is
    yielded, and the accumulator, the readings and the trail stay as they
    are; the redraw that follows does not change the state either. *)
Theorem C10_empty_poll_is_noop (st : Receiver.state) (self : Visualizer.state) :
  Receiver.iteration [] st = st
  /\ Visualizer.read_data [] self = self
  /\ fst (Visualizer.update [] self) = self.
Proof. repeat split. Qed.

(* ===================================================================== *)
(** * Decoding a chunk: claims C3 and C6                                  *)
(* ===================================================================== *)

(** C3, as stated, fails: no replacement character stands for an invalid
    sequence.  The chunk [61 FF 62] is not valid UTF-8 and is read as
    ["ab"]; a decoder that replaces would give ["a", U+FFFD, "b"]. *)
Lemma C3_counterexample :
  let chunk := [x61; xff; x62] in
  utf8_decode strict chunk = None
  /\ read_chunk chunk = Some (lit "ab")
  /\ ~ In REPLACEMENT (lit "ab")
  /\ utf8_decode replace chunk = Some [97; REPLACEMENT; 98]%N.
Proof.
  vm_compute. repeat split. intros [H|[H|[]]]; discriminate.
Qed.

(** C3, amended.  When a poll reads a chunk with sequences that are not
    valid UTF-8, the read does not fail and each invalid sequence is
    dropped, nothing put in its place.  Well-formed text at the front of
    the chunk is kept as it is, and what follows it is read in the same
    way.  When the chunk begins with an invalid sequence (no part of it
    from its first byte on is well formed), the bytes for which a
    replacing decoder puts one replacement character contribute nothing,
    and reading goes on right behind them.  So the text added to the
    accumulator is what a replacing decoder would give less the
    replacement characters it puts in, at least one of them when the chunk
    is not valid.  And when the bytes [EF BF BD], which encode U+FFFD
    itself, do not occur in the chunk, the text read holds no replacement
    character at all: it is what a replacing decoder would give with every
    replacement character taken out. *)
Theorem C3_invalid_bytes_dropped (chunk : list byte) :
  exists text shown,
    read_chunk chunk = Some text
    /\ utf8_decode replace chunk = Some shown
    /\ less_replacements text shown
    /\ (utf8_decode strict chunk = None ->
        (List.length text < List.length shown)%nat)
    /\ (forall pre suf t,
          chunk = pre ++ suf -> utf8_decode strict pre = Some t ->
          text = t ++ decoded suf)
    /\ (chunk <> [] ->
        (forall pre suf,
            chunk = pre ++ suf -> pre <> [] -> utf8_decode strict pre = None) ->
        exists k shown',
          (1 <= k <= List.length chunk)%nat
          /\ text = decoded (skipn k chunk)
          /\ utf8_decode replace (skipn k chunk) = Some shown'
          /\ shown = REPLACEMENT :: shown')
    /\ ((forall pre suf, chunk <> pre ++ [xef; xbf; xbd] ++ suf) ->
        ~ In REPLACEMENT text
        /\ text = filter (fun c => negb (c =? REPLACEMENT)%N) shown).
Proof.
  destruct (ignore_versus_replace chunk) as (text & shown & Hi & Hr & Hd & _ & Hlt).
  exists text, shown. unfold read_chunk. rewrite read_all.
  assert (decoded chunk = text) as Etext
    by (pose proof (decoded_ignore chunk); congruence).
  assert ((forall pre suf, chunk <> pre ++ [xef; xbf; xbd] ++ suf) ->
          ~ In REPLACEMENT text) as Hno.
  { intros Hfree Hin. rewrite <- Etext in Hin.
    destruct (replacement_read_from_bytes chunk Hin) as (pre & suf & E).
    exact (Hfree pre suf E). }
  split; [exact Hi|]. split; [exact Hr|]. split; [exact Hd|].
  split; [exact Hlt|]. split; [|split]; [| |intros Hfree; split;
    [exact (Hno Hfree)|exact (less_replacements_all text shown Hd (Hno Hfree))]].
  - intros pre suf t -> Hpre. rewrite <- Etext. apply decoded_app, Hpre.
  - intros Hne Hbad. destruct chunk as [|b1 s1]; [contradiction|].
    destruct (utf8_head b1 s1) as [(k & c & Hk & Hvalid & _)|(k & Hk & Hstep)].
    + exfalso.
      assert (utf8_decode strict (firstn k (b1 :: s1)) = None) as Hnone.
      { apply (Hbad _ (skipn k (b1 :: s1))).
        - symmetry. apply firstn_skipn.
        - destruct k; [lia | discriminate]. }
      congruence.
    + destruct (ignore_versus_replace (skipn k (b1 :: s1)))
        as (text' & shown' & Hi' & Hr' & _).
      exists k, shown'. split; [exact Hk|].
      pose proof (Hstep ignore) as Ei. pose proof (Hstep replace) as Er.
      rewrite Hi, Hi' in Ei. rewrite Hr, Hr' in Er. simpl in Ei, Er.
      pose proof (decoded_ignore (skipn k (b1 :: s1))) as Ed.
      repeat split; congruence.
Qed.

(** The chunk [61 FF 62]: not valid, with the well-formed front [61] and
    without the bytes [EF BF BD]; and what follows that front, [FF 62],
    which begins with an invalid sequence. *)
Lemma C3_witness :
  (exists text shown,
      read_chunk [x61; xff; x62] = Some text
      /\ utf8_decode replace [x61; xff; x62] = Some shown
      /\ less_replacements text shown
      /\ (List.length text < List.length shown)%nat
      /\ text = [97%N] ++ decoded [xff; x62]
      /\ text = filter (fun c => negb (c =? REPLACEMENT)%N) shown)
  /\ (exists text shown k shown',
         read_chunk [xff; x62] = Some text
         /\ utf8_decode replace [xff; x62] = Some shown
         /\ (1 <= k <= 2)%nat
         /\ text = decoded (skipn k [xff; x62])
         /\ utf8_decode replace (skipn k [xff; x62]) = Some shown'
         /\ shown = REPLACEMENT :: shown').
Proof.
  split.
  - destruct (C3_invalid_bytes_dropped [x61; xff; x62])
      as (text & shown & Ht & Hs & Hd & Hlt & Hfront & _ & Hall).
    exists text, shown. repeat split; try assumption.
    + apply Hlt. vm_compute. reflexivity.
    + apply (Hfront [x61] [xff; x62]); reflexivity.
    + apply Hall. intros pre suf E.
      destruct pre as [|a [|b [|c [|d pre]]]]; discriminate E.
  - destruct (C3_invalid_bytes_dropped [xff; x62])
      as (text & shown & Ht & Hs & _ & _ & _ & Hhead & _).
    destruct Hhead as (k & shown' & Hk & Hr1 & Hr2 & Hr3).
    + discriminate.
    + intros pre suf E Hne.
      destruct pre as [|a [|b [|c pre]]]; [contradiction | | | discriminate].
      * injection E as <- _. reflexivity.
      * injection E as <- <- _. reflexivity.
    + exists text, shown, k, shown'. simpl in Hk. repeat split; try assumption; lia.
Defined.

(** C6, as stated, fails when the line is cut inside a multi-byte
    character.  The line made of U+00E9 (bytes C3 A9) and
    ["Setup,1,2,3,4,5,6"] has a record when it arrives in one poll.  Cut
    after its first byte, the two halves of the
    character are dropped: the second poll yields ["Setup,1,2,3,4,5,6"],
    which is not the complete line, and the visualiser takes it for a
    diagnostic message, so that no record is stored. *)
Lemma C6_counterexample :
  let first := [xc3] in
  let second := [xa9] ++ blit "Setup,1,2,3,4,5,6" ++ [x0a] in
  let line := [233%N] ++ lit "Setup,1,2,3,4,5,6" in
  received [first ++ second] = line ++ [LF]
  /\ Spec.parse line <> None
  /\ Visualizer.f1 (Visualizer.read_data (first ++ second) Visualizer.initial)
     = of_int 1
  /\ Visualizer.read_data second (Visualizer.read_data first Visualizer.initial)
     = Visualizer.initial
  /\ Receiver.stdout (Receiver.start [first; second]) = [lit "Setup,1,2,3,4,5,6"]
  /\ Receiver.stdout (Receiver.start [first ++ second]) = [line].
Proof.
  vm_compute. repeat split. discriminate.
Qed.

(** C6, amended.  Take a line with a record whose bytes arrive in two
    polls, the cut not inside a multi-byte character (both parts are
    well-formed UTF-8, as every part of an ASCII line is), the accumulator
    being empty before.  The first poll yields no line: the receiver prints
    nothing and the visualiser keeps its readings.  The second poll, which
    brings the rest and the line feed, yields exactly the complete line,
    trimmed; the visualiser ends in the state it reaches when the line
    arrives in one poll, with the readings of the record. *)
Theorem C6_line_split_across_polls
    (first rest : list byte) (t1 t2 : str) (r : Spec.record)
    (st : Receiver.state) (self : Visualizer.state) :
  utf8_decode strict first = Some t1 ->
  utf8_decode strict rest = Some t2 ->
  contains LF (t1 ++ t2) = false ->
  Spec.parse (strip (t1 ++ t2)) = Some r ->
  Receiver.buffer st = [] ->
  Visualizer.buffer self = [] ->
  let st1 := Receiver.iteration first st in
  let st2 := Receiver.iteration (rest ++ [x0a]) st1 in
  let self1 := Visualizer.read_data first self in
  let self2 := Visualizer.read_data (rest ++ [x0a]) self1 in
  Receiver.stdout st1 = Receiver.stdout st
  /\ Receiver.stdout st2 = Receiver.stdout st ++ [strip (t1 ++ t2)]
  /\ Receiver.buffer st2 = []
  /\ self1 = Visualizer.set_buffer t1 self
  /\ self2 = Visualizer.read_data (first ++ rest ++ [x0a]) self
  /\ self2 = Visualizer.handle_line (t1 ++ t2) self
  /\ Visualizer.f1 self2 = Spec.F1 r /\ Visualizer.f2 self2 = Spec.F2 r
  /\ Visualizer.f3 self2 = Spec.F3 r /\ Visualizer.f4 self2 = Spec.F4 r
  /\ Visualizer.copx self2 = Spec.COPx r /\ Visualizer.copy self2 = Spec.COPy r.
Proof.
  intros H1 H2 Hlf Hr Hst Hself. cbv zeta.
  rewrite contains_app in Hlf. apply orb_false_elim in Hlf as [Hlf1 Hlf2].
  assert (decoded first = t1) as D1 by (apply decoded_strict; assumption).
  assert (decoded (rest ++ [x0a]) = t2 ++ [LF]) as D2
    by (rewrite (decoded_app rest [x0a] t2 H2); reflexivity).
  assert (decoded (first ++ rest ++ [x0a]) = (t1 ++ t2) ++ [LF]) as D3
    by (rewrite (decoded_app first _ t1 H1), D2, app_assoc; reflexivity).
  assert (contains LF (t1 ++ t2) = false) as Hlf
    by (rewrite contains_app, Hlf1, Hlf2; reflexivity).
  assert (segments ((t1 ++ t2) ++ [LF]) = ([t1 ++ t2], [])) as S3
    by (rewrite segments_cut by assumption; reflexivity).
  assert (truthy (strip (t1 ++ t2)) = true) as Ht.
  { destruct (strip (t1 ++ t2)); [|reflexivity]. vm_compute in Hr. discriminate. }
  (* the receiver *)
  assert (Receiver.iteration first st
          = {| Receiver.buffer := t1; Receiver.stdout := Receiver.stdout st |}) as R1.
  { rewrite iteration_segments by (rewrite Hst; reflexivity).
    rewrite Hst, D1. cbn [app]. rewrite segments_no_lf by assumption.
    cbn. rewrite app_nil_r. reflexivity. }
  assert (Receiver.iteration (rest ++ [x0a]) (Receiver.iteration first st)
          = {| Receiver.buffer := [];
               Receiver.stdout := Receiver.stdout st ++ [strip (t1 ++ t2)] |}) as R2.
  { rewrite R1. rewrite iteration_segments by assumption.
    cbn [Receiver.buffer Receiver.stdout]. rewrite D2, app_assoc, S3.
    cbn [fst snd map filter]. rewrite Ht. reflexivity. }
  (* the visualiser *)
  assert (Visualizer.read_data first self = Visualizer.set_buffer t1 self) as V1.
  { rewrite read_data_segments by (rewrite Hself; reflexivity).
    rewrite Hself, D1. cbn [app]. rewrite segments_no_lf by assumption.
    reflexivity. }
  assert (Visualizer.read_data (first ++ rest ++ [x0a]) self
          = Visualizer.handle_line (t1 ++ t2) self) as V3.
  { rewrite read_data_segments by (rewrite Hself; reflexivity).
    rewrite Hself, D3. cbn [app]. rewrite S3. cbn [fst snd fold_left].
    rewrite <- Hself, <- (handle_line_buffer (t1 ++ t2) self).
    apply set_buffer_same. }
  assert (Visualizer.read_data (rest ++ [x0a]) (Visualizer.set_buffer t1 self)
          = Visualizer.handle_line (t1 ++ t2) self) as V2.
  { rewrite read_data_segments by assumption.
    cbn [Visualizer.buffer Visualizer.set_buffer]. rewrite D2, app_assoc, S3.
    cbn [fst snd fold_left]. rewrite handle_line_set_buffer, set_buffer_twice.
    rewrite <- Hself, <- (handle_line_buffer (t1 ++ t2) self).
    apply set_buffer_same. }
  rewrite R2, R1, V1, V2, V3.
  pose proof (handle_line_readings (t1 ++ t2) r self Hr) as Hread.
  cbv zeta in Hread. cbn [Receiver.buffer Receiver.stdout].
  repeat split; apply Hread.
Qed.

(** The line ["1000,1.0,2.0,3.0,4.0,0.5,-0.5"], cut inside its second field. *)
Lemma C6_witness :
  let first := blit "1000,1.0,2." in
  let rest := blit "0,3.0,4.0,0.5,-0.5" in
  let self2 := Visualizer.read_data (rest ++ [x0a])
                 (Visualizer.read_data first Visualizer.initial) in
  Receiver.stdout (Receiver.iteration (rest ++ [x0a])
                     (Receiver.iteration first Receiver.initial))
  = [lit "1000,1.0,2.0,3.0,4.0,0.5,-0.5"]
  /\ self2 = Visualizer.read_data (first ++ rest ++ [x0a]) Visualizer.initial
  /\ Visualizer.f2 self2 = of_int 2.
Proof.
  pose proof (C6_line_split_across_polls
                (blit "1000,1.0,2.") (blit "0,3.0,4.0,0.5,-0.5")
                (lit "1000,1.0,2.") (lit "0,3.0,4.0,0.5,-0.5")
                {| Spec.F1 := of_int 1; Spec.F2 := of_int 2; Spec.F3 := of_int 3;
                   Spec.F4 := of_int 4;
                   Spec.COPx := of_decimal false 5 (-1);
                   Spec.COPy := of_decimal true 5 (-1) |}
                Receiver.initial Visualizer.initial
                eq_refl eq_refl eq_refl eq_refl eq_refl eq_refl) as H.
  cbv zeta in H. destruct H as (_ & H2 & _ & _ & H5 & _ & _ & H8 & _).
  cbv zeta. repeat split; assumption.
Defined.

(* ===================================================================== *)
(** * The parser and the trail: claims C2, C5, C8, C9                     *)
(* ===================================================================== *)

(** C2 does not hold of the code.  The line ["1000,1.0,2.0,3.0,4.0,0.5,-"]
    (the end of its last field is missing) has seven fields, and its sixth
    conversion fails.  The [try] block has by then assigned [f1] to [f4]
    and [copx]: the readings change although the line has no record, and
    the new [copx] stands next to the old [copy].  Only the trail is left
    as it was. *)
Lemma C2_partial_update :
  let line := lit "1000,1.0,2.0,3.0,4.0,0.5,-" in
  let self' := Visualizer.handle_line line Visualizer.initial in
  Spec.parse (strip line) = None
  /\ Visualizer.f1 self' = of_int 1 /\ Visualizer.f2 self' = of_int 2
  /\ Visualizer.f3 self' = of_int 3 /\ Visualizer.f4 self' = of_int 4
  /\ Visualizer.copx self' = of_decimal false 5 (-1)
  /\ Visualizer.copy self' = Visualizer.copy Visualizer.initial
  /\ Visualizer.trail_x self' = [] /\ Visualizer.trail_y self' = []
  /\ self' <> Visualizer.initial.
Proof.
  vm_compute. repeat split. discriminate.
Qed.

(** C5.  After any sequence of polls the trail holds the centres of
    pressure of the last twenty records parsed (of all of them when there
    are fewer), oldest first, newest last: [trail_x] and [trail_y] are the
    last [min n 20] of the [COPx] and of the [COPy] of the [n] records, in
    order. *)
Theorem C5_trail_holds_last_twenty (polls : list (list byte)) :
  let recs := records (fst (segments (received polls))) in
  Visualizer.trail_x (ticks polls) = lastn 20 (map Spec.COPx recs)
  /\ Visualizer.trail_y (ticks polls) = lastn 20 (map Spec.COPy recs)
  /\ List.length (Visualizer.trail_x (ticks polls)) = Nat.min (List.length recs) 20
  /\ List.length (Visualizer.trail_y (ticks polls)) = Nat.min (List.length recs) 20.
Proof.
  cbv zeta. destruct (ticks_trail polls) as [Hx Hy]. cbv zeta in Hx, Hy.
  rewrite Hx, Hy, !lastn_length, !length_map. repeat split.
Qed.

(** Twenty-five data lines, one poll each, with the centres of pressure
    (1, -1) to (25, -25): the trail ends as (6, -6) to (25, -25). *)
Example trail_after_25_lines :
  let data_line k := blit (String.append "0,1,1,1,1," (String.append k (String.append ",-" k)))
                     ++ [x0a] in
  let polls := map data_line
    ["1"; "2"; "3"; "4"; "5"; "6"; "7"; "8"; "9"; "10"; "11"; "12"; "13";
     "14"; "15"; "16"; "17"; "18"; "19"; "20"; "21"; "22"; "23"; "24"; "25"]%string in
  Visualizer.trail_x (ticks polls)
  = map of_int [6; 7; 8; 9; 10; 11; 12; 13; 14; 15; 16; 17; 18; 19; 20; 21; 22;
                23; 24; 25]%Z
  /\ Visualizer.trail_y (ticks polls)
     = map of_int [-6; -7; -8; -9; -10; -11; -12; -13; -14; -15; -16; -17; -18;
                   -19; -20; -21; -22; -23; -24; -25]%Z.
Proof. vm_compute. split; reflexivity. Qed.

(** C8.  Whatever the state, the line ["1000,1.0,2.0,3.0,4.0,0.5,-0.5"] sets
    the readings to F1=1.0, F2=2.0, F3=3.0, F4=4.0, COPx=0.5, COPy=-0.5,
    and the lines ["Setup complete"] and ["1,2,3"] leave the state as it
    is: they have no record. *)
Theorem C8_parser_examples (self : Visualizer.state) :
  let self' := Visualizer.handle_line (lit "1000,1.0,2.0,3.0,4.0,0.5,-0.5") self in
  (Visualizer.f1 self' = of_int 1 /\ Visualizer.f2 self' = of_int 2
   /\ Visualizer.f3 self' = of_int 3 /\ Visualizer.f4 self' = of_int 4
   /\ Visualizer.copx self' = of_decimal false 5 (-1)
   /\ Visualizer.copy self' = of_decimal true 5 (-1))
  /\ Visualizer.handle_line (lit "Setup complete") self = self
  /\ Visualizer.handle_line (lit "1,2,3") self = self
  /\ Spec.parse (lit "Setup complete") = None
  /\ Spec.parse (lit "1,2,3") = None.
Proof.
  cbv zeta. split; [|repeat split].
  - apply (handle_line_readings (lit "1000,1.0,2.0,3.0,4.0,0.5,-0.5")
             {| Spec.F1 := of_int 1; Spec.F2 := of_int 2; Spec.F3 := of_int 3;
                Spec.F4 := of_int 4;
                Spec.COPx := of_decimal false 5 (-1);
                Spec.COPy := of_decimal true 5 (-1) |} self).
    vm_compute. reflexivity.
Qed.

(** C9.  A centre of pressure joins the trail only with a line whose six
    numeric fields all convert: after any sequence of polls the two trails
    have the same length, and their entries are, pair by pair, the
    [(COPx, COPy)] of the last records parsed; a line without a record,
    also one whose first fields convert and a later one does not, leaves
    both trails as they are. *)
Theorem C9_trails_aligned_from_records (polls : list (list byte)) :
  let recs := records (fst (segments (received polls))) in
  let self := ticks polls in
  List.length (Visualizer.trail_x self) = List.length (Visualizer.trail_y self)
  /\ combine (Visualizer.trail_x self) (Visualizer.trail_y self)
     = lastn 20 (map (fun r => (Spec.COPx r, Spec.COPy r)) recs)
  /\ (forall line s,
        Spec.parse (strip line) = None ->
        Visualizer.trail_x (Visualizer.handle_line line s) = Visualizer.trail_x s
        /\ Visualizer.trail_y (Visualizer.handle_line line s) = Visualizer.trail_y s).
Proof.
  cbv zeta. destruct (ticks_trail polls) as [Hx Hy]. cbv zeta in Hx, Hy.
  rewrite Hx, Hy. repeat split.
  - rewrite !lastn_length, !length_map. reflexivity.
  - unfold lastn. rewrite !length_map.
    generalize (List.length (records (fst (segments (received polls)))) - 20).
    generalize (records (fst (segments (received polls)))).
    intros l. induction l as [|r l IH]; intros [|k]; simpl; try reflexivity.
    + f_equal. apply (IH 0).
    + apply IH.
  - apply handle_line_rejected; assumption.
  - apply handle_line_rejected; assumption.
Qed.

(** A line whose first five conversions succeed and whose sixth fails. *)
Lemma C9_witness :
  let line := lit "1000,1.0,2.0,3.0,4.0,0.5,-" in
  Visualizer.trail_x (Visualizer.handle_line line Visualizer.initial) = []
  /\ Visualizer.trail_y (Visualizer.handle_line line Visualizer.initial) = [].
Proof.
  destruct (C9_trails_aligned_from_records []) as (_ & _ & H).
  apply (H (lit "1000,1.0,2.0,3.0,4.0,0.5,-") Visualizer.initial).
  vm_compute. reflexivity.
Defined.

(* ===================================================================== *)
(** * The force cells: claim C4                                           *)
(* ===================================================================== *)




(* ===================================================================== *)
(** * Further properties of the line framer                               *)
(* ===================================================================== *)

Section FramerMore.

(** Both programs are determined by the text received. *)
Lemma same_text_same_run (polls polls' : list (list byte)) :
  received polls = received polls' ->
  Receiver.start polls = Receiver.start polls' /\ ticks polls = ticks polls'.
Proof.
  intros H. split.
  - destruct (framed polls) as (Ho & Hb & _).
    destruct (framed polls') as (Ho' & Hb' & _).
    rewrite H in Ho, Hb. rewrite <- Ho' in Ho. rewrite <- Hb' in Hb.
    destruct (Receiver.start polls), (Receiver.start polls').
    simpl in *. congruence.
  - rewrite !ticks_segments, H. reflexivity.
Qed.

(** Chunks that are well formed decode to the text of the whole data. *)
Lemma received_well_formed (polls : list (list byte)) :
  Forall (fun w => well_formed w = true) polls ->
  received polls = decoded (List.concat polls).
Proof.
  induction 1 as [|w polls Hw _ IH]; [reflexivity|].
  unfold received in *. simpl. rewrite IH.
  unfold well_formed in Hw.
  destruct (utf8_decode strict w) as [tw|] eqn:E; [|discriminate].
  rewrite (decoded_app w (List.concat polls) tw E).
  rewrite (decoded_strict w tw E). reflexivity.
Qed.

Lemma ascii_well_formed (w : list byte) :
  Forall (fun b => (Byte.to_N b < 128)%N) w -> well_formed w = true.
Proof.
  intros H. unfold well_formed. rewrite (utf8_decode_ascii strict w H). reflexivity.
Qed.

(** The loop body of the visualiser sees a line as the receiver prints
    it: trimmed, and not at all when nothing is left of it. *)
Lemma handle_line_strip (g : str) (self : Visualizer.state) :
  Visualizer.handle_line g self =
  if truthy (strip g) then Visualizer.handle_line (strip g) self else self.
Proof.
  unfold Visualizer.handle_line. rewrite strip_idem.
  destruct (truthy (strip g)); reflexivity.
Qed.

Lemma fold_handle_printed (segs : list str) (self : Visualizer.state) :
  fold_left (fun s line => Visualizer.handle_line line s) segs self =
  fold_left (fun s line => Visualizer.handle_line line s)
            (filter truthy (map strip segs)) self.
Proof.
  revert self. induction segs as [|g segs IH]; intros self; simpl; [reflexivity|].
  rewrite handle_line_strip. destruct (truthy (strip g)) eqn:E; simpl; apply IH.
Qed.

Lemma drop_while_app (p : char -> bool) (l m : str) :
  drop_while p (l ++ m) =
  match drop_while p l with
  | [] => drop_while p m
  | _ :: _ => drop_while p l ++ m
  end.
Proof.
  induction l as [|c l IH]; simpl; [destruct (drop_while p m); reflexivity|].
  destruct (p c); [exact IH | reflexivity].
Qed.

Lemma drop_while_all (p : char -> bool) (l : str) :
  Forall (fun c => p c = true) l -> drop_while p l = [].
Proof. induction 1 as [|c l Hc _ IH]; simpl; [reflexivity|]. rewrite Hc. exact IH. Qed.

(** White space around a text does not survive trimming. *)
Lemma strip_padded (before l after : str) :
  Forall (fun c => is_space c = true) before ->
  Forall (fun c => is_space c = true) after ->
  strip (before ++ l ++ after) = strip l.
Proof.
  intros Hb Ha. unfold strip, lstrip.
  rewrite (drop_while_app is_space before), (drop_while_all is_space before Hb).
  rewrite (drop_while_app is_space l).
  destruct (drop_while is_space l) as [|c t] eqn:E.
  - rewrite (drop_while_all is_space after Ha). reflexivity.
  - rewrite <- E. unfold rstrip. rewrite rev_app_distr.
    rewrite (drop_while_app is_space (rev after)).
    rewrite (drop_while_all is_space (rev after)) by (apply Forall_rev; exact Ha).
    reflexivity.
Qed.

End FramerMore.

(* ===================================================================== *)
(** * Line feeds survive decoding                                         *)
(* ===================================================================== *)

Section DecodingLineFeeds.

Ltac range_facts :=
  repeat match goal with
         | H : negb _ = false |- _ => apply negb_false_iff in H
         | H : (_ || _) = false |- _ => apply orb_false_elim in H as [? ?]
         | H : is_continuation _ = true |- _ =>
           unfold is_continuation in H; apply andb_prop in H as [? ?]
         | H : (if ?c then _ else _) = false |- _ => destruct c eqn:?
         | H : (_ <? _)%N = false |- _ => apply N.ltb_ge in H
         | H : (_ <? _)%N = true |- _ => apply N.ltb_lt in H
         | H : (_ <=? _)%N = true |- _ => apply N.leb_le in H
         | H : (_ =? _)%N = false |- _ => apply N.eqb_neq in H
         | H : (_ =? _)%N = true |- _ => apply N.eqb_eq in H
         end.

Ltac not_lf :=
  repeat match goal with
         | |- context [N.eqb LF ?x] =>
           let E := fresh "E" in
           assert (N.eqb LF x = false) as E
             by (apply N.eqb_neq; unfold LF; rewrite ?N.shiftl_mul_pow2;
                 change (2 ^ 6)%N with 64%N; change (2 ^ 12)%N with 4096%N;
                 change (2 ^ 18)%N with 262144%N; lia);
           rewrite E; clear E
         end.

(** Decoding yields at most one character for a byte, and a line feed
    exactly for every line-feed byte: the bytes that are dropped and the
    sequences of several bytes hold none, and give none. *)
Lemma decode_counts (w : list byte) :
  exists t,
    utf8_decode ignore w = Some t
    /\ (List.length t <= List.length w)%nat
    /\ count_lf t = count_lf_bytes w.
Proof.
  induction w as [w IH] using strong_list_ind.
  destruct w as [|b1 s1]; [exists []; repeat split; reflexivity|].
  unfold count_lf, count_lf_bytes in *. cbn [utf8_decode].
  repeat match goal with
         | |- context [if ?c then _ else _] =>
           lazymatch c with
           | N.eqb LF _ => fail
           | _ => destruct c eqn:?
           end
         | |- context [match ?l with [] => _ | _ :: _ => _ end] =>
           destruct l as [|? ?]; lazy beta match
         end.
  all: unfold emit, on_error; cbn [filter List.length].
  all: range_facts.
  all: try match goal with
           | |- context [utf8_decode ignore ?s'] =>
             destruct (IH s') as (t & -> & Hlen & Hlf); [simpl; lia|];
             cbn [option_map]; eexists; split; [reflexivity|];
             cbn [filter List.length]; cbn [filter List.length] in Hlen, Hlf
           end.
  all: try (eexists; split; [reflexivity|]; cbn [filter List.length]).
  all: try (destruct (N.eqb LF (Byte.to_N b1)) eqn:Elf;
            [apply N.eqb_eq in Elf; unfold LF in Elf|]);
       try lia.
  all: not_lf; cbn [List.length]; try lia.
  all: split; [lia | exact Hlf].
Qed.

End DecodingLineFeeds.

(* ===================================================================== *)
(** * Counting lines                                                      *)
(* ===================================================================== *)

Section Counting.

Lemma count_lf_app (a b : str) : count_lf (a ++ b) = count_lf a + count_lf b.
Proof. unfold count_lf. rewrite filter_app, length_app. reflexivity. Qed.

Lemma count_lf_bytes_app (a b : list byte) :
  count_lf_bytes (a ++ b) = count_lf_bytes a + count_lf_bytes b.
Proof. unfold count_lf_bytes. rewrite filter_app, length_app. reflexivity. Qed.

(** A text has as many terminated segments as line feeds. *)
Lemma segments_count (t : str) : List.length (fst (segments t)) = count_lf t.
Proof.
  unfold count_lf. induction t as [|c t IH]; simpl; [reflexivity|].
  destruct (segments t) as [segs rest]. simpl in IH.
  rewrite (N.eqb_sym LF c). destruct (N.eqb c LF); simpl.
  - rewrite IH. reflexivity.
  - destruct segs; simpl in *; exact IH.
Qed.

Lemma decoded_counts (w : list byte) :
  (List.length (decoded w) <= List.length w)%nat
  /\ count_lf (decoded w) = count_lf_bytes w.
Proof.
  destruct (decode_counts w) as (t & Ht & Hlen & Hlf).
  pose proof (decoded_ignore w) as E. rewrite Ht in E. injection E as <-.
  split; assumption.
Qed.

Lemma received_counts (polls : list (list byte)) :
  (List.length (received polls) <= List.length (List.concat polls))%nat
  /\ count_lf (received polls) = count_lf_bytes (List.concat polls).
Proof.
  unfold received. induction polls as [|w polls [IHlen IHlf]]; simpl;
    [split; reflexivity|].
  destruct (decoded_counts w) as [Hlen Hlf].
  rewrite !length_app, count_lf_app, count_lf_bytes_app. split; lia.
Qed.

Lemma count_lf_zero (t : str) : count_lf t = 0 -> contains LF t = false.
Proof.
  unfold count_lf, contains. induction t as [|c t IH]; simpl; [reflexivity|].
  destruct (N.eqb LF c); simpl; [discriminate|]. exact IH.
Qed.

Lemma snd_segments_length (t : str) :
  (List.length (snd (segments t)) <= List.length t)%nat.
Proof.
  induction t as [|c t IH]; simpl; [lia|].
  destruct (segments t) as [segs rest]. simpl in IH.
  destruct (N.eqb c LF); simpl; [lia|]. destruct segs; simpl; lia.
Qed.

End Counting.

(* ===================================================================== *)
(** * The framer: chunking, line ends, white space                        *)
(* ===================================================================== *)

(** How the data is cut into chunks does not matter as long as no chunk
    boundary falls inside a multi-byte character: two sequences of polls
    whose chunks are each well-formed UTF-8 and that bring the same bytes
    leave the receiver with the same output and buffer, and the visualiser
    in the same state. *)
Theorem rechunking_invariance (polls polls' : list (list byte)) :
  Forall (fun w => well_formed w = true) polls ->
  Forall (fun w => well_formed w = true) polls' ->
  List.concat polls = List.concat polls' ->
  Receiver.start polls = Receiver.start polls' /\ ticks polls = ticks polls'.
Proof.
  intros H H' E. apply same_text_same_run.
  rewrite (received_well_formed polls H), (received_well_formed polls' H'), E.
  reflexivity.
Qed.

(** Two data lines in one poll, and the same bytes in three polls cut
    inside the fields. *)
Lemma rechunking_invariance_witness :
  let one := [blit "1,1,2,3,4,5,6" ++ [x0a] ++ blit "2,6,5,4,3,2,1" ++ [x0a]] in
  let three := [blit "1,1,2,"; blit "3,4,5,6" ++ [x0a] ++ blit "2,6,5"; [];
                blit ",4,3,2,1" ++ [x0a]] in
  Receiver.start one = Receiver.start three /\ ticks one = ticks three.
Proof.
  apply rechunking_invariance.
  - repeat constructor.
  - repeat constructor.
  - reflexivity.
Defined.

(** The visualiser handles exactly the lines the receiver prints, in the
    same order, and both are left with the same unterminated rest: run on
    the same polls, the state of the visualiser is its loop body folded
    over the receiver's output. *)
Theorem visualiser_reads_printed_lines (polls : list (list byte)) :
  ticks polls =
  Visualizer.set_buffer (Receiver.buffer (Receiver.start polls))
    (fold_left (fun s line => Visualizer.handle_line line s)
       (Receiver.stdout (Receiver.start polls)) Visualizer.initial).
Proof.
  destruct (framed polls) as (Ho & Hb & _). rewrite Ho, Hb.
  rewrite ticks_segments, fold_handle_printed. reflexivity.
Qed.

(** The number of lines cut from the stream, blank ones included, is the
    number of line-feed bytes received: bytes that do not decode and
    chunk boundaries neither make nor hide a line end.  The receiver
    prints at most that many lines. *)
Theorem lines_cut_at_line_feed_bytes (polls : list (list byte)) :
  List.length (fst (segments (received polls))) = count_lf_bytes (List.concat polls)
  /\ (List.length (Receiver.stdout (Receiver.start polls))
      <= count_lf_bytes (List.concat polls))%nat.
Proof.
  destruct (received_counts polls) as [_ Hlf].
  assert (List.length (fst (segments (received polls)))
          = count_lf_bytes (List.concat polls)) as E
    by (rewrite segments_count; exact Hlf).
  split; [exact E|].
  destruct (framed polls) as (-> & _ & _). rewrite <- E.
  etransitivity; [apply filter_length_le|]. rewrite length_map. reflexivity.
Qed.

(** Until a line-feed byte arrives nothing is printed and no reading
    changes: all the text received stays in the buffer, which grows with
    every poll. *)
Theorem no_line_feed_no_line (polls : list (list byte)) :
  count_lf_bytes (List.concat polls) = 0 ->
  Receiver.start polls
  = {| Receiver.buffer := received polls; Receiver.stdout := [] |}
  /\ ticks polls = Visualizer.set_buffer (received polls) Visualizer.initial.
Proof.
  intros H. destruct (received_counts polls) as [_ Hlf]. rewrite H in Hlf.
  apply count_lf_zero in Hlf.
  destruct (framed polls) as (Ho & Hb & _).
  rewrite ticks_segments. rewrite (segments_no_lf _ Hlf) in *. simpl in *.
  split; [|reflexivity].
  destruct (Receiver.start polls). simpl in *. congruence.
Qed.

(** A data line that arrives in three polls without its line feed. *)
Lemma no_line_feed_no_line_witness :
  let polls := [blit "1000,1.0"; blit ",2.0,3.0,4.0"; blit ",0.5,-0.5"] in
  Receiver.start polls
  = {| Receiver.buffer := lit "1000,1.0,2.0,3.0,4.0,0.5,-0.5"; Receiver.stdout := [] |}
  /\ ticks polls
     = Visualizer.set_buffer (lit "1000,1.0,2.0,3.0,4.0,0.5,-0.5") Visualizer.initial.
Proof.
  apply (no_line_feed_no_line [blit "1000,1.0"; blit ",2.0,3.0,4.0"; blit ",0.5,-0.5"]).
  reflexivity.
Defined.

(** The buffer never holds more characters than bytes were received. *)
Theorem buffer_bounded_by_bytes (polls : list (list byte)) :
  (List.length (Receiver.buffer (Receiver.start polls))
   <= List.length (List.concat polls))%nat
  /\ (List.length (Visualizer.buffer (ticks polls))
      <= List.length (List.concat polls))%nat.
Proof.
  destruct (framed polls) as (_ & -> & ->).
  destruct (received_counts polls) as [Hlen _].
  pose proof (snd_segments_length (received polls)). lia.
Qed.

(** White space around a line, a carriage return before the line feed
    for one, changes neither what the receiver prints nor what the
    visualiser stores. *)
Theorem surrounding_space_ignored (before line after : str)
    (out : list str) (self : Visualizer.state) :
  Forall (fun c => is_space c = true) before ->
  Forall (fun c => is_space c = true) after ->
  Receiver.print_line (before ++ line ++ after) out = Receiver.print_line line out
  /\ Visualizer.handle_line (before ++ line ++ after) self
     = Visualizer.handle_line line self.
Proof.
  intros Hb Ha. unfold Receiver.print_line, Visualizer.handle_line.
  rewrite (strip_padded before line after Hb Ha). split; reflexivity.
Qed.

(** A line sent with a blank in front and CR LF at its end. *)
Lemma surrounding_space_ignored_witness :
  let line := lit "1000,1.0,2.0,3.0,4.0,0.5,-0.5" in
  Receiver.print_line ([32%N] ++ line ++ [13%N]) [] = Receiver.print_line line []
  /\ Visualizer.handle_line ([32%N] ++ line ++ [13%N]) Visualizer.initial
     = Visualizer.handle_line line Visualizer.initial.
Proof.
  apply surrounding_space_ignored; repeat constructor.
Defined.

(* ===================================================================== *)
(** * Further properties of the visualiser                                *)
(* ===================================================================== *)

Section VisualizerMore.
Import Visualizer.

Lemma fold_handle_invariant (P : state -> Prop) :
  (forall line s, P s -> P (handle_line line s)) ->
  forall lines s, P s ->
    P (fold_left (fun s line => handle_line line s) lines s).
Proof.
  intros Hstep lines. induction lines as [|l lines IH]; intros s Hs; simpl;
    [assumption|]. apply IH, Hstep, Hs.
Qed.

Lemma last_push (t : list float) (v d : float) : last (Spec.push t v) d = v.
Proof. unfold Spec.push. destruct (20 <=? List.length t)%nat; apply last_last. Qed.

Lemma push_length_ge (t : list float) (v : float) :
  (List.length t <= List.length (Spec.push t v))%nat
  /\ (1 <= List.length (Spec.push t v))%nat
  /\ ((List.length t <= 20)%nat -> (List.length (Spec.push t v) <= 20)%nat).
Proof.
  unfold Spec.push. destruct (Nat.leb_spec 20 (List.length t)).
  - destruct t as [|h t]; [simpl in *; lia|]. simpl. rewrite length_app. simpl. lia.
  - rewrite length_app. simpl. lia.
Qed.

(** One line: the trails stay aligned, do not shrink, and stay within
    twenty points. *)
Lemma handle_line_trail (tx0 : nat) (line : str) (s : state) :
  trails_aligned s /\ (tx0 <= List.length (trail_x s))%nat
  /\ ((List.length (trail_x s) <= 20)%nat) ->
  let s' := handle_line line s in
  trails_aligned s' /\ (tx0 <= List.length (trail_x s'))%nat
  /\ ((List.length (trail_x s') <= 20)%nat).
Proof.
  intros (Ha & Hge & Hle). cbv zeta.
  split; [apply handle_line_aligned, Ha|].
  destruct (Spec.parse (strip line)) as [r|] eqn:E.
  - rewrite (handle_line_store line r s E Ha). simpl.
    pose proof (push_length_ge (trail_x s) (Spec.COPx r)). lia.
  - destruct (handle_line_rejected line s E) as (-> & _). lia.
Qed.

Lemma read_data_fold (waiting : list byte) (self : state) :
  exists lines b,
    read_data waiting self
    = set_buffer b (fold_left (fun s line => handle_line line s) lines self).
Proof.
  unfold read_data. destruct (0 <? in_waiting waiting)%nat.
  - destruct (read_chunk waiting) as [chunk|].
    + rewrite line_loop_segments. eexists. eexists. reflexivity.
    + exists [], (buffer self). simpl. symmetry. apply set_buffer_same.
  - exists [], (buffer self). simpl. symmetry. apply set_buffer_same.
Qed.

Lemma split_cut c (t r : str) :
  contains c t = false -> split c (t ++ c :: r) = t :: split c r.
Proof.
  induction t as [|x t IH]; simpl; intros H.
  - rewrite N.eqb_refl. reflexivity.
  - apply orb_false_elim in H as [Hx Ht].
    rewrite (N.eqb_sym x c), Hx, (IH Ht). reflexivity.
Qed.

End VisualizerMore.

Section VisualizerInvariants.
Import Visualizer.

(** One poll: the trails stay aligned, do not shrink, and stay within
    twenty points. *)
Lemma read_data_trail (waiting : list byte) (self : state) :
  trails_aligned self -> (List.length (trail_x self) <= 20)%nat ->
  let self' := read_data waiting self in
  trails_aligned self'
  /\ (List.length (trail_x self) <= List.length (trail_x self'))%nat
  /\ (List.length (trail_x self') <= 20)%nat.
Proof.
  intros Ha Hle. cbv zeta.
  destruct (read_data_fold waiting self) as (lines & b & ->).
  pose proof (fold_handle_invariant
                (fun s => trails_aligned s
                          /\ (List.length (trail_x self) <= List.length (trail_x s))%nat
                          /\ (List.length (trail_x s) <= 20)%nat)
                (handle_line_trail (List.length (trail_x self)))
                lines self (conj Ha (conj (le_n _) Hle))) as H.
  exact H.
Qed.

(** The animation from any state in which the trail line shows the
    trail: if no [update] raises, it still does at the end. *)
Lemma frames_show_trail (polls : list (list byte)) :
  forall (self self' : state) (fig fig' : Figure.artists),
    trails_aligned self -> (List.length (trail_x self) <= 20)%nat ->
    Figure.cop_trail fig = (trail_x self, trail_y self) ->
    Figure.cop_point fig = (copx self, copy self) ->
    List.length (Figure.force_cells fig) = 4 ->
    Figure.frames polls (self, fig) = Some (self', fig') ->
    self' = ticks_from_state self polls
    /\ Figure.cop_trail fig' = (trail_x self', trail_y self')
    /\ Figure.cop_point fig' = (copx self', copy self')
    /\ List.length (Figure.force_cells fig') = 4.
Proof.
  induction polls as [|w polls IH]; intros self self' fig fig' Ha Hle Ht Hp Hc Hrun;
    simpl in Hrun.
  - injection Hrun as <- <-. repeat split; assumption.
  - destruct (read_data_trail w self Ha Hle) as (Ha' & Hge' & Hle').
    destruct (update_forces (read_data w self)) as [cells|] eqn:Hcells;
      [|discriminate].
    unfold ticks_from_state. cbn [fold_left update fst].
    apply (IH _ _ _ _ Ha' Hle') in Hrun; try reflexivity.
    + exact Hrun.
    + cbn [Figure.cop_trail].
      destruct (Nat.ltb_spec 0 (List.length (trail_x (read_data w self))))
        as [Hpos|Hzero]; [reflexivity|].
      rewrite Ht. unfold trails_aligned in Ha, Ha'.
      destruct (trail_x (read_data w self)); [|simpl in Hzero; lia].
      destruct (trail_y (read_data w self)); [|discriminate].
      destruct (trail_x self); [|simpl in Hge'; lia].
      destruct (trail_y self); [reflexivity | discriminate].
    + exact (update_forces_length _ _ Hcells).
Qed.

(** The animation runs through when no tick leaves an infinite force
    among the readings. *)
Lemma frames_complete (polls : list (list byte)) :
  forall (self : state) (fig : Figure.artists),
    (forall n, Forall (fun f => is_infinite f = false)
                 (forces_of (ticks_from_state self (firstn (S n) polls)))) ->
    exists fig',
      Figure.frames polls (self, fig) = Some (ticks_from_state self polls, fig').
Proof.
  induction polls as [|w polls IH]; intros self fig Hfin; simpl.
  - exists fig. reflexivity.
  - pose proof (Hfin 0) as H0. cbn in H0.
    rewrite (update_forces_finite _ H0).
    apply IH. intros n. exact (Hfin (S n)).
Qed.

End VisualizerInvariants.

(* ===================================================================== *)
(** * The visualiser: records, trail and display                          *)
(* ===================================================================== *)



(** When the line completed last has a record, the readings are those of
    that record and the marker sits on the newest point of the trail:
    the last entries of [trail_x] and [trail_y] are [copx] and [copy]. *)
Theorem marker_on_newest_point (polls : list (list byte))
    (earlier : list str) (line rest : str) (r : Spec.record) (d : float) :
  segments (received polls) = (earlier ++ [line], rest) ->
  Spec.parse (strip line) = Some r ->
  let self := ticks polls in
  Visualizer.copx self = Spec.COPx r /\ Visualizer.copy self = Spec.COPy r
  /\ Visualizer.f1 self = Spec.F1 r /\ Visualizer.f2 self = Spec.F2 r
  /\ Visualizer.f3 self = Spec.F3 r /\ Visualizer.f4 self = Spec.F4 r
  /\ last (Visualizer.trail_x self) d = Visualizer.copx self
  /\ last (Visualizer.trail_y self) d = Visualizer.copy self.
Proof.
  intros Hseg Hr. cbv zeta. rewrite ticks_segments, Hseg. cbn [fst snd].
  rewrite fold_left_app. cbn [fold_left].
  rewrite (handle_line_store line r _ Hr)
    by (apply (fold_handle_invariant trails_aligned handle_line_aligned);
        reflexivity).
  cbn. rewrite !last_push. repeat split.
Qed.

(** A diagnostic line, then a data line. *)
Lemma marker_on_newest_point_witness :
  let self := ticks [blit "Setup complete" ++ [x0a] ++ blit "7,1,2,3,4,2.5,-1" ++ [x0a]] in
  last (Visualizer.trail_x self) Visualizer.zero = Visualizer.copx self
  /\ last (Visualizer.trail_y self) Visualizer.zero = Visualizer.copy self.
Proof.
  pose proof (marker_on_newest_point
                [blit "Setup complete" ++ [x0a] ++ blit "7,1,2,3,4,2.5,-1" ++ [x0a]]
                [lit "Setup complete"] (lit "7,1,2,3,4,2.5,-1") []
                {| Spec.F1 := of_int 1; Spec.F2 := of_int 2; Spec.F3 := of_int 3;
                   Spec.F4 := of_int 4;
                   Spec.COPx := of_decimal false 25 (-1);
                   Spec.COPy := of_int (-1) |}
                Visualizer.zero eq_refl eq_refl) as H.
  cbv zeta in H. cbv zeta. split; apply H.
Defined.

(** The first field, the time stamp, is never looked at: two trimmed
    lines that differ only in it and do not begin like a diagnostic
    message are handled alike. *)
Theorem time_field_ignored (time time' fields : str) (self : Visualizer.state) :
  contains COMMA time = false -> contains COMMA time' = false ->
  let line := time ++ COMMA :: fields in
  let line' := time' ++ COMMA :: fields in
  strip line = line -> strip line' = line' ->
  existsb (startswith line) Visualizer.non_data = false ->
  existsb (startswith line') Visualizer.non_data = false ->
  Visualizer.handle_line line self = Visualizer.handle_line line' self.
Proof.
  intros Ht Ht'. cbv zeta. intros Hs Hs' Hp Hp'.
  unfold Visualizer.handle_line. rewrite Hs, Hs', Hp, Hp'.
  rewrite !split_cut by assumption.
  assert (forall t, truthy (t ++ COMMA :: fields) = true) as Htruthy
    by (intros [|c t]; reflexivity).
  rewrite !Htruthy. cbn [negb andb List.length].
  destruct (S (List.length (split COMMA fields)) =? 7)%nat; reflexivity.
Qed.

(** The reference line with another time stamp. *)
Lemma time_field_ignored_witness :
  Visualizer.handle_line (lit "1000,1.0,2.0,3.0,4.0,0.5,-0.5") Visualizer.initial
  = Visualizer.handle_line (lit "t=?,1.0,2.0,3.0,4.0,0.5,-0.5") Visualizer.initial.
Proof.
  apply (time_field_ignored (lit "1000") (lit "t=?") (lit "1.0,2.0,3.0,4.0,0.5,-0.5"));
    reflexivity.
Defined.

(** Whenever [update] has run through a sequence of ticks without
    raising, the trail line shows exactly the trail, two sequences of the
    same length of at most twenty points, the marker is at the current
    centre of pressure and four force cells are set: the test that skips
    an empty trail never leaves a stale line.  And [update] does run
    through when no tick leaves an infinite force among the readings. *)
Theorem trail_line_shows_trail (polls : list (list byte)) :
  (forall self fig,
     Figure.animate polls = Some (self, fig) ->
     self = ticks polls
     /\ Figure.cop_trail fig = (Visualizer.trail_x self, Visualizer.trail_y self)
     /\ List.length (fst (Figure.cop_trail fig)) = List.length (snd (Figure.cop_trail fig))
     /\ (List.length (fst (Figure.cop_trail fig)) <= 20)%nat
     /\ Figure.cop_point fig = (Visualizer.copx self, Visualizer.copy self)
     /\ List.length (Figure.force_cells fig) = 4)
  /\ ((forall n, Forall (fun f => is_infinite f = false)
                   (forces_of (ticks (firstn n polls)))) ->
      exists fig, Figure.animate polls = Some (ticks polls, fig)).
Proof.
  split.
  - intros self fig Hrun.
    destruct (frames_show_trail polls Visualizer.initial self Figure.setup_plot fig)
      as (Hs & Ht & Hp & Hc); try reflexivity; [simpl; lia | exact Hrun |].
    change (ticks_from_state Visualizer.initial polls) with (ticks polls) in Hs.
    subst self.
    destruct (ticks_trail polls) as [Hx Hy]. cbv zeta in Hx, Hy.
    repeat split; try assumption.
    + rewrite Ht. cbn [fst snd]. rewrite Hx, Hy, !lastn_length, !length_map.
      reflexivity.
    + rewrite Ht. cbn [fst snd]. rewrite Hx, lastn_length. lia.
  - intros Hfin. apply (frames_complete polls Visualizer.initial Figure.setup_plot).
    intros n. exact (Hfin (S n)).
Qed.

(** Two data lines, one tick each. *)
Lemma trail_line_shows_trail_witness :
  let polls := [blit "1,1,2,3,4,5,6" ++ [x0a]; blit "2,6,5,4,3,2,1" ++ [x0a]] in
  exists fig,
    Figure.animate polls = Some (ticks polls, fig)
    /\ Figure.cop_trail fig
       = (Visualizer.trail_x (ticks polls), Visualizer.trail_y (ticks polls)).
Proof.
  cbv zeta.
  destruct (trail_line_shows_trail
              [blit "1,1,2,3,4,5,6" ++ [x0a]; blit "2,6,5,4,3,2,1" ++ [x0a]])
    as [Hshow Hrun].
  destruct Hrun as [fig Hfig].
  - intros [|[|[|n]]]; vm_compute; repeat constructor.
  - exists fig. split; [exact Hfig|]. apply (Hshow _ _ Hfig).
Defined.

(** With a total above 1.0 and an infinite force among the readings,
    which [float] accepts as ["inf"], the share of that force is not a
    number and [set_alpha] raises [ValueError]: the force loop stops and
    [update] does not complete. *)
Theorem infinite_force_stops_redraw (waiting : list byte)
    (self : Visualizer.state) (fig : Figure.artists) :
  let self' := Visualizer.read_data waiting self in
  fgt (Visualizer.total_force self') Visualizer.c_1_0 = true ->
  Exists (fun f => is_infinite f = true) (forces_of self') ->
  Visualizer.update_forces self' = None
  /\ Figure.update waiting (self, fig) = None.
Proof.
  cbv zeta. intros H Hex.
  pose proof (update_forces_infinite _ H Hex) as E.
  split; [exact E|]. unfold Figure.update. rewrite E. reflexivity.
Qed.

(** A data line whose first force is ["inf"]. *)
Lemma infinite_force_stops_redraw_witness :
  Figure.update (blit "0,inf,0,0,0,0,0" ++ [x0a])
                (Visualizer.initial, Figure.setup_plot) = None.
Proof.
  apply (infinite_force_stops_redraw (blit "0,inf,0,0,0,0,0" ++ [x0a])
           Visualizer.initial Figure.setup_plot).
  - vm_compute. reflexivity.
  - apply Exists_cons_tl, Exists_cons_hd. reflexivity.
Defined.

(** From any state with aligned trails of at most twenty points, a poll
    keeps the trails aligned and within twenty points, and never makes
    them shorter. *)
Theorem poll_keeps_trail_bounds (waiting : list byte) (self : Visualizer.state) :
  List.length (Visualizer.trail_x self) = List.length (Visualizer.trail_y self) ->
  (List.length (Visualizer.trail_x self) <= 20)%nat ->
  let self' := Visualizer.read_data waiting self in
  List.length (Visualizer.trail_x self') = List.length (Visualizer.trail_y self')
  /\ (List.length (Visualizer.trail_x self) <= List.length (Visualizer.trail_x self'))%nat
  /\ (List.length (Visualizer.trail_x self') <= 20)%nat.
Proof. apply read_data_trail. Qed.

(** A poll that brings one data line and half of the next. *)
Lemma poll_keeps_trail_bounds_witness :
  let self' := Visualizer.read_data (blit "1,1,2,3,4,5,6" ++ [x0a] ++ blit "2,6,5")
                 Visualizer.initial in
  List.length (Visualizer.trail_x self') = List.length (Visualizer.trail_y self')
  /\ (0 <= List.length (Visualizer.trail_x self'))%nat
  /\ (List.length (Visualizer.trail_x self') <= 20)%nat.
Proof.
  apply (poll_keeps_trail_bounds (blit "1,1,2,3,4,5,6" ++ [x0a] ++ blit "2,6,5")
           Visualizer.initial); [reflexivity | simpl; lia].
Defined.

(** A reading that is not a number, which [float] accepts as ["nan"],
    makes the total not a number: every cell then shows ['0%'] at the
    least opacity, whatever the other forces. *)
Theorem nan_reading_blanks_cells (self : Visualizer.state) :
  Visualizer.f1 self = S754_nan \/ Visualizer.f2 self = S754_nan
  \/ Visualizer.f3 self = S754_nan \/ Visualizer.f4 self = S754_nan ->
  Visualizer.update_forces self = Some (map blank_cell (forces_of self)).
Proof.
  intros H.
  assert (Visualizer.total_force self = S754_nan) as Ht.
  { unfold Visualizer.total_force.
    destruct H as [H|[H|[H|H]]]; rewrite H;
      rewrite ?fadd_nan_l, ?fadd_nan_r; reflexivity. }
  unfold Visualizer.update_forces, forces_of. cbn [Visualizer.for_each map].
  unfold Visualizer.update_cell. rewrite Ht.
  assert (fgt S754_nan Visualizer.c_1_0 = false) as E
    by (unfold fgt; rewrite c_1_0_value; reflexivity).
  rewrite E. reflexivity.
Qed.

(** A data line whose second force is ["nan"], with a total that would
    otherwise be 30. *)
Lemma nan_reading_blanks_cells_witness :
  let self := Visualizer.read_data (blit "5,10,nan,10,10,0,0" ++ [x0a])
                Visualizer.initial in
  Visualizer.f2 self = S754_nan
  /\ Visualizer.update_forces self = Some (map blank_cell (forces_of self)).
Proof.
  split; [reflexivity|].
  apply (nan_reading_blanks_cells
           (Visualizer.read_data (blit "5,10,nan,10,10,0,0" ++ [x0a]) Visualizer.initial)).
  right. left. reflexivity.
Defined.

(** Above the threshold, a sensor that reads zero has its cell at 0.0%
    and at the least opacity. *)
Theorem unloaded_cell_at_least_opacity (total force : float) :
  fgt total Visualizer.c_1_0 = true ->
  is_zero force = true ->
  Visualizer.update_cell total force
  = Some {| Visualizer.value := force;
            Visualizer.pct_text := Visualizer.pct_of Visualizer.zero;
            Visualizer.alpha := Visualizer.c_0_3 |}.
Proof.
  intros H Hz. destruct (above_one _ H) as (Habs & Hnz & Hmax).
  unfold Visualizer.update_cell, truediv. rewrite H, Habs, Hmax, Hnz.
  destruct force as [s| | |]; try discriminate.
  destruct total as [st|st| |st m e]; try discriminate; simpl in Habs;
    injection Habs as Hs; subst st; vm_compute; reflexivity.
Qed.

(** The forces (0, 2, 0, 0): the cell of F1. *)
Lemma unloaded_cell_at_least_opacity_witness :
  Visualizer.update_cell (of_int 2) Visualizer.zero
  = Some {| Visualizer.value := Visualizer.zero;
            Visualizer.pct_text := Visualizer.pct_of Visualizer.zero;
            Visualizer.alpha := Visualizer.c_0_3 |}.
Proof.
  apply (unloaded_cell_at_least_opacity (of_int 2) Visualizer.zero); reflexivity.
Defined.

(** A line leaves every attribute as it is when it is empty after
    trimming, begins like a diagnostic message, has not seven fields, or
    has a first force that does not convert: in these cases nothing has
    been assigned when the line is given up. *)
Theorem line_given_up_before_assignment (line : str) (self : Visualizer.state) :
  truthy (strip line) = false
  \/ existsb (startswith (strip line)) Visualizer.non_data = true
  \/ List.length (split COMMA (strip line)) <> 7
  \/ (exists p1, nth_error (split COMMA (strip line)) 1 = Some p1
                 /\ float_of_str p1 = None) ->
  Visualizer.handle_line line self = self.
Proof.
  intros [H|[H|[H|(p1 & Hp & Hf)]]].
  - apply handle_line_skipped. auto.
  - apply handle_line_skipped. auto.
  - apply handle_line_skipped. auto.
  - unfold Visualizer.handle_line.
    destruct (truthy (strip line)
              && negb (existsb (startswith (strip line)) Visualizer.non_data));
      [|reflexivity].
    destruct (List.length (split COMMA (strip line)) =? 7)%nat; [|reflexivity].
    unfold Visualizer.try_pass, Visualizer.store_fields, Visualizer.float_at,
      Visualizer.bind.
    rewrite Hp, Hf. reflexivity.
Qed.

(** A line whose first force is not a number. *)
Lemma line_given_up_before_assignment_witness :
  Visualizer.handle_line (lit "1000,x,2.0,3.0,4.0,0.5,-0.5") Visualizer.initial
  = Visualizer.initial.
Proof.
  apply line_given_up_before_assignment. right. right. right.
  exists (lit "x"). split; reflexivity.
Defined.

(** Once a frame is drawn, a tick that finds no byte waiting draws the
    same frame again: state and artists stay as they are. *)
Theorem idle_tick_redraws_same_frame (waiting : list byte)
    (self self' : Visualizer.state) (fig fig' : Figure.artists) :
  Figure.update waiting (self, fig) = Some (self', fig') ->
  Figure.update [] (self', fig') = Some (self', fig').
Proof.
  unfold Figure.update. intros H.
  change (Visualizer.read_data [] self') with self'.
  destruct (Visualizer.update_forces (Visualizer.read_data waiting self))
    as [cells|] eqn:Hc; [|discriminate].
  injection H as <- <-. rewrite Hc. cbn [Figure.cop_trail].
  destruct (0 <? List.length (Visualizer.trail_x (Visualizer.read_data waiting self)))%nat;
    reflexivity.
Qed.

(** The frame drawn after the reference line. *)
Lemma idle_tick_redraws_same_frame_witness :
  exists now,
    Figure.update (blit "1000,1.0,2.0,3.0,4.0,0.5,-0.5" ++ [x0a])
                  (Visualizer.initial, Figure.setup_plot) = Some now
    /\ Figure.update [] now = Some now.
Proof.
  destruct (Figure.update (blit "1000,1.0,2.0,3.0,4.0,0.5,-0.5" ++ [x0a])
                          (Visualizer.initial, Figure.setup_plot))
    as [[self' fig']|] eqn:E; [|vm_compute in E; discriminate].
  exists (self', fig'). split; [reflexivity|].
  exact (idle_tick_redraws_same_frame _ _ _ _ _ E).
Defined.

(** A chunk that is well-formed UTF-8 is read as the text it encodes,
    nothing dropped; a chunk of ASCII bytes gives one character for each
    byte. *)
Theorem well_formed_chunk_read_whole (waiting : list byte) (text : str) :
  utf8_decode strict waiting = Some text ->
  read_chunk waiting = Some text
  /\ (Forall (fun b => (Byte.to_N b < 128)%N) waiting ->
      text = map Byte.to_N waiting).
Proof.
  intros H. split.
  - rewrite read_chunk_decoded, (decoded_strict waiting text H). reflexivity.
  - intros Ha. rewrite (utf8_decode_ascii strict waiting Ha) in H. congruence.
Qed.

(** The bytes of a euro sign between two letters. *)
Lemma well_formed_chunk_read_whole_witness :
  read_chunk [x61; xe2; x82; xac; x62] = Some [97; 8364; 98]%N.
Proof.
  apply (well_formed_chunk_read_whole [x61; xe2; x82; xac; x62] [97; 8364; 98]%N).
  reflexivity.
Defined.
